(** * Breath detection for the birthday-cake candle (script.js)

    A shallow embedding of the detection pipeline of [script.js]:
    the two feature estimators [computeRMS] and [computeHighFreqAvg],
    the one-shot [calibrate], the decision rule of [isBlowing] and the
    [tick] of [loopDetect], followed by the properties the design
    document states about them. *)

From Stdlib Require Import Reals Lra Lia ZArith List Bool Strings.Byte.
From Stdlib Require Import Sorting.Permutation Sorting.Sorted.
Import ListNotations.

Local Open Scope R_scope.

(** ** JavaScript numbers

    A JavaScript number is a binary64 float.  It is modelled as a real
    that every arithmetic operation rounds, together with the three
    special values the operations can produce.  The rounding operator is
    kept abstract: the development uses only the four laws below, all
    of which hold of round-to-nearest on binary64.  A finite result
    beyond the largest double, which JavaScript turns into an infinity,
    is not modelled, nor is the sign of zero. *)

Class Rounding : Type := {
  rnd : R -> R;
  (** rounding is monotone *)
  rnd_mono : forall x y : R, x <= y -> rnd x <= rnd y;
  (** a rounded real is representable *)
  rnd_idem : forall x : R, rnd (rnd x) = rnd x;
  (** integers of magnitude up to 2^53 are representable *)
  rnd_int : forall k : Z, (Z.abs k <= 2 ^ 53)%Z -> rnd (IZR k) = IZR k;
  (** the difference of two distinct representable reals does not round
      to zero (gradual underflow) *)
  rnd_sub : forall x y : R,
      rnd x = x -> rnd y = y -> rnd (x - y) = 0 -> x = y
}.

(** Exact arithmetic is the simplest instance of the laws. *)
#[refine] Instance exact_arithmetic : Rounding := {| rnd := fun x => x |}.
Proof.
  - intros x y H; exact H.
  - intros x; reflexivity.
  - intros k _; reflexivity.
  - intros x y _ _ H; lra.
Defined.

(** The integers from 0 to [N] are represented exactly. *)
Definition exact_upto {RD : Rounding} (N : Z) : Prop :=
  forall k : Z, (0 <= k <= N)%Z -> rnd (IZR k) = IZR k.

Inductive num : Type :=
| NaN
| PInf
| NInf
| Fin (x : R).

Definition Rgtb (x y : R) : bool := if Rgt_dec x y then true else false.
Definition Reqb (x y : R) : bool := if Req_dec_T x y then true else false.

Module JS.
Section Ops.
Context {RD : Rounding}.

(** A numeric literal of the source text. *)
Definition lit (x : R) : num := Fin (rnd x).

(** An array length or a loop counter, as a number. *)
Definition of_nat (n : nat) : num := Fin (INR n).

Definition neg (a : num) : num :=
  match a with
  | NaN => NaN
  | PInf => NInf
  | NInf => PInf
  | Fin x => Fin (- x)
  end.

(** [a + b] *)
Definition add (a b : num) : num :=
  match a, b with
  | Fin x, Fin y => Fin (rnd (x + y))
  | NaN, _ | _, NaN => NaN
  | PInf, NInf | NInf, PInf => NaN
  | PInf, _ | _, PInf => PInf
  | NInf, _ | _, NInf => NInf
  end.

(** [a - b] *)
Definition sub (a b : num) : num :=
  match a, b with
  | Fin x, Fin y => Fin (rnd (x - y))
  | NaN, _ | _, NaN => NaN
  | PInf, PInf | NInf, NInf => NaN
  | PInf, _ | _, NInf => PInf
  | NInf, _ | _, PInf => NInf
  end.

(** An infinity [i] times or divided by the finite [x]. *)
Definition scale_inf (i : num) (x : R) : num :=
  if Rgtb x 0 then i else if Rgtb 0 x then neg i else NaN.

(** [a * b] *)
Definition mul (a b : num) : num :=
  match a, b with
  | Fin x, Fin y => Fin (rnd (x * y))
  | NaN, _ | _, NaN => NaN
  | Fin x, i | i, Fin x => scale_inf i x
  | PInf, PInf | NInf, NInf => PInf
  | PInf, NInf | NInf, PInf => NInf
  end.

(** [a / b]: a finite number over zero is an infinity, [0 / 0] is
    [NaN]. *)
Definition div (a b : num) : num :=
  match a, b with
  | Fin x, Fin y =>
      if Reqb y 0 then scale_inf PInf x else Fin (rnd (x / y))
  | NaN, _ | _, NaN => NaN
  | Fin _, _ => Fin 0
  | i, Fin y => if Rgtb 0 y then neg i else i
  | _, _ => NaN
  end.

(** [Math.sqrt(a)] *)
Definition sqrt (a : num) : num :=
  match a with
  | Fin x => if Rgtb 0 x then NaN else Fin (rnd (R_sqrt.sqrt x))
  | PInf => PInf
  | NaN | NInf => NaN
  end.

(** [a > b]; every comparison with [NaN] is false. *)
Definition gt (a b : num) : bool :=
  match a, b with
  | Fin x, Fin y => Rgtb x y
  | PInf, Fin _ | PInf, NInf | Fin _, NInf => true
  | _, _ => false
  end.

(** [a < b] *)
Definition lt (a b : num) : bool := gt b a.

(** [a <= b] *)
Definition le (a b : num) : bool :=
  match a, b with
  | Fin x, Fin y => negb (Rgtb x y)
  | NaN, _ | _, NaN => false
  | NInf, _ | _, PInf => true
  | _, _ => false
  end.

(** [Math.max(a, b)]: [NaN] as soon as an argument is. *)
Definition max (a b : num) : num :=
  match a, b with
  | NaN, _ | _, NaN => NaN
  | _, _ => if gt a b then a else b
  end.

(** Truthiness of a number: [0] and [NaN] are falsy. *)
Definition truthy (a : num) : bool :=
  match a with
  | NaN => false
  | Fin x => negb (Reqb x 0)
  | PInf | NInf => true
  end.

(** [Math.floor] of a finite number. *)
Definition floor (x : R) : Z := Int_part x.

End Ops.
End JS.

Declare Scope num_scope.
Delimit Scope num_scope with num.
Bind Scope num_scope with num.
Infix "+" := JS.add : num_scope.
Infix "-" := JS.sub : num_scope.
Infix "*" := JS.mul : num_scope.
Infix "/" := JS.div : num_scope.
Infix ">" := JS.gt : num_scope.
Infix "<" := JS.lt : num_scope.
Infix "<=" := JS.le : num_scope.

(** [l] is in ascending order: each element is [<=] the next. *)
Definition ascending_order (l : list num) : Prop :=
  Sorted (fun a b => JS.le a b = true) l.

(** [a] is a value a number variable can hold, other than [NaN]: an
    infinity or a representable real. *)
Definition is_number {RD : Rounding} (a : num) : Prop :=
  match a with
  | NaN => False
  | PInf | NInf => True
  | Fin x => rnd x = x
  end.

Definition numbers {RD : Rounding} (l : list num) : Prop :=
  Forall is_number l.

(** ** Frames

    [analyser.getByteTimeDomainData(td)] and
    [analyser.getByteFrequencyData(fd)] fill two [Uint8Array]s; one such
    pair is a frame.  The type [byte] holds exactly the values 0..255. *)

Definition Uint8Array : Type := list byte.

Record Frame : Type := {
  td : Uint8Array;
  fd : Uint8Array
}.

(** The length of a typed array is an integer index, at most
    [2^53 - 1]. *)
Definition max_length : Z := 2 ^ 53 - 1.

Definition array_length_ok (a : Uint8Array) : Prop :=
  (Z.of_nat (length a) <= max_length)%Z.

(** A well-formed frame: two non-empty buffers of admissible length. *)
Definition well_formed (fr : Frame) : Prop :=
  td fr <> [] /\ fd fr <> []
  /\ array_length_ok (td fr) /\ array_length_ok (fd fr).

(** The sum of all the bins of [a] stays in the range where integers
    are exact (lengths up to [2^53 / 255], above 3.5e13; the analyser
    of the script has 256 bins). *)
Definition exact_sum (a : Uint8Array) : Prop :=
  (255 * Z.of_nat (length a) <= 2 ^ 53)%Z.

(** [a] is a finite number between [lo] and [hi]. *)
Definition in_range (a : num) (lo hi : R) : Prop :=
  exists x : R, a = Fin x /\ lo <= x <= hi.

(** [analyser.fftSize = 512], and [analyser.frequencyBinCount] is half
    of it: the lengths of the two buffers of the script. *)
Definition fftSize : nat := 512.
Definition frequencyBinCount : nat := fftSize / 2.

(** The number stored in a byte. *)
Definition byte_val (b : byte) : Z := Z.of_N (Byte.to_N b).

(** [a[i]] as an operand of arithmetic: a read outside the array gives
    [undefined], which arithmetic turns into [NaN]. *)
Definition get (a : Uint8Array) (i : Z) : num :=
  if (i <? 0)%Z then NaN
  else match nth_error a (Z.to_nat i) with
       | Some b => Fin (IZR (byte_val b))
       | None => NaN
       end.

Section Pipeline.
Context {RD : Rounding}.
Local Open Scope num_scope.

(** ** Feature extraction *)

(** One round of the loop of [computeRMS]:
    [const v = (uint8[i] - 128) / 128; sumSq += v * v]. *)
Definition rms_step (sumSq : num) (b : byte) : num :=
  let v := (Fin (IZR (byte_val b)) - JS.lit 128) / JS.lit 128 in
  sumSq + v * v.

(** [computeRMS(uint8)]: the loop visits every index of the array in
    order, hence folds over its elements. *)
Definition computeRMS (uint8 : Uint8Array) : num :=
  let sumSq := fold_left rms_step uint8 (JS.lit 0) in
  JS.sqrt (sumSq / JS.of_nat (length uint8)) * JS.lit 100.

(** [Math.floor(freqData.length * 0.35)] and
    [Math.floor(freqData.length * 0.9)]. *)
Definition band_start (L : nat) : Z := JS.floor (rnd (INR L * rnd 0.35)).
Definition band_end (L : nat) : Z := JS.floor (rnd (INR L * rnd 0.9)).

(** The indices [start, start + 1, ...] below [end] that the loop of
    [computeHighFreqAvg] visits. *)
Definition band (start stop : Z) : list Z :=
  map (fun k => (start + Z.of_nat k)%Z) (seq 0 (Z.to_nat (stop - start))).

(** [computeHighFreqAvg(freqData)]: [sum] adds the bins of the band,
    [n] counts them. *)
Definition computeHighFreqAvg (freqData : Uint8Array) : num :=
  let start := band_start (length freqData) in
  let stop := band_end (length freqData) in
  let sum := fold_left (fun sum i => sum + get freqData i)
                       (band start stop) (JS.lit 0) in
  let n := length (band start stop) in
  if JS.truthy (JS.of_nat n) then sum / JS.of_nat n else JS.lit 0.

Record FeaturePair : Type := {
  energy : num;
  tilt : num
}.

(** The two features [isBlowing] and [calibrate] take from a frame. *)
Definition extract (fr : Frame) : FeaturePair :=
  {| energy := computeRMS (td fr); tilt := computeHighFreqAvg (fd fr) |}.

(** ** Calibration *)

(** [(a, b) => a - b] *)
Definition ascending (a b : num) : num := a - b.

(** [Array.prototype.sort(cmp)], as a stable insertion sort: [x] goes
    before the first element [y] that [cmp] puts after it
    ([cmp(y, x) > 0]). *)
Fixpoint insert (cmp : num -> num -> num) (x : num) (l : list num)
  : list num :=
  match l with
  | [] => [x]
  | y :: l' =>
      if cmp y x > Fin 0 then x :: y :: l' else y :: insert cmp x l'
  end.

Definition sort (cmp : num -> num -> num) (l : list num) : list num :=
  fold_left (fun acc x => insert cmp x acc) l [].

(** [v || 0], where [v] is the result of an array read ([None] for
    [undefined]). *)
Definition or_zero (v : option num) : num :=
  match v with
  | Some x => if JS.truthy x then x else JS.lit 0
  | None => JS.lit 0
  end.

(** [buf.sort((a,b)=>a-b); buf[Math.floor(buf.length/2)] || 0] *)
Definition baseline_of (buf : list num) : num :=
  let buf := sort ascending buf in
  or_zero (nth_error buf (length buf / 2)).

(** The session variables of the script that the pipeline reads and
    writes, and whether the candle carries the class [out]. *)
Record Session : Type := {
  baselineRMS : num;
  baselineHF : num;
  calibrated : bool;
  out : bool
}.

(** [let baselineRMS = 0, baselineHF = 0, calibrated = false] *)
Definition initial (candle_out : bool) : Session :=
  {| baselineRMS := JS.lit 0; baselineHF := JS.lit 0;
     calibrated := false; out := candle_out |}.

(** What one run of [step] finds: the frame in the analyser and the
    value of [performance.now()] read after the two pushes. *)
Record Sample : Type := {
  frame : Frame;
  clock : num
}.

(** [step] of [calibrate].  [env] lists what the successive animation
    frames find; when the host delivers no further frame the promise
    stays pending and the session is left as it is. *)
Fixpoint step (t0 : num) (rmsBuf hfBuf : list num) (env : list Sample)
  (s : Session) : Session :=
  match env with
  | [] => s
  | e :: env' =>
      let rmsBuf := rmsBuf ++ [computeRMS (td (frame e))] in
      let hfBuf := hfBuf ++ [computeHighFreqAvg (fd (frame e))] in
      if clock e - t0 < JS.lit 1200 then step t0 rmsBuf hfBuf env' s
      else {| baselineRMS := baseline_of rmsBuf;
              baselineHF := baseline_of hfBuf;
              calibrated := true;
              out := out s |}
  end.

(** [calibrate()], started at time [t0]. *)
Definition calibrate (t0 : num) (env : list Sample) (s : Session)
  : Session :=
  step t0 [] [] env
    {| baselineRMS := baselineRMS s; baselineHF := baselineHF s;
       calibrated := false; out := out s |}.

(** The frames a calibration run samples: all up to and including the
    first one whose clock is no longer below [t0 + 1200]. *)
Fixpoint collected (t0 : num) (env : list Sample) : list Frame :=
  match env with
  | [] => []
  | e :: env' =>
      frame e ::
        (if clock e - t0 < JS.lit 1200 then collected t0 env' else [])
  end.

(** The energy and the tilt sequence of a list of frames: the
    contents of [rmsBuf] and [hfBuf]. *)
Definition energies (frames : list Frame) : list num :=
  map (fun fr => computeRMS (td fr)) frames.
Definition tilts (frames : list Frame) : list num :=
  map (fun fr => computeHighFreqAvg (fd fr)) frames.

(** ** Classification *)

(** The decision of [isBlowing] on the features [rms] and [hf] of the
    frame it has read. *)
Definition blowing (rms hf baselineRMS baselineHF : num) : bool :=
  let rmsThresh := JS.max (baselineRMS + JS.lit 5) (JS.lit 10) in
  let hfThresh := JS.max (baselineHF + JS.lit 6) (JS.lit 14) in
  let hissStrong := hf > (baselineHF + JS.lit 18) in
  let combined :=
    (hf > hfThresh) && ((rms > rmsThresh) || (rms > baselineRMS + JS.lit 12)) in
  hissStrong || combined.

(** [classify(features, baseline)] of the design document: the same
    decision on a feature pair and a baseline pair. *)
Definition classify (f b : FeaturePair) : bool :=
  blowing (energy f) (tilt f) (energy b) (tilt b).

(** ** The detection loop

    The loop runs in a small state monad over [Session] that also logs
    the two effects the properties speak about. *)

Inductive Event : Type :=
| CallIsBlowing (s : Session)   (* isBlowing() entered in session state s *)
| AddOut.                       (* onlyCandle.classList.add("out") *)

Definition M (A : Type) : Type := Session -> A * Session * list Event.

Definition ret {A : Type} (a : A) : M A := fun s => (a, s, []).

Definition bind {A B : Type} (c : M A) (k : A -> M B) : M B :=
  fun s =>
    let '(a, s1, l1) := c s in
    let '(b, s2, l2) := k a s1 in
    (b, s2, l1 ++ l2).

Notation "x <- c ;; k" := (bind c (fun x => k))
  (at level 61, c at next level, right associativity).
Notation "c ;; k" := (bind c (fun _ => k))
  (at level 61, right associativity).

Definition final {A : Type} (r : A * Session * list Event) : Session :=
  snd (fst r).
Definition events {A : Type} (r : A * Session * list Event) : list Event :=
  snd r.
Definition result {A : Type} (r : A * Session * list Event) : A :=
  fst (fst r).

(** [onlyCandle.classList.contains("out")] *)
Definition classList_contains_out : M bool := fun s => (out s, s, []).

(** [onlyCandle.classList.add("out")] *)
Definition classList_add_out : M unit :=
  fun s =>
    (tt,
     {| baselineRMS := baselineRMS s; baselineHF := baselineHF s;
        calibrated := calibrated s; out := true |},
     [AddOut]).

(** Reading the variable [calibrated]. *)
Definition read_calibrated : M bool := fun s => (calibrated s, s, []).

(** [isBlowing()], with [fr] the frame the analyser holds. *)
Definition isBlowing (fr : Frame) : M bool :=
  fun s =>
    let rms := computeRMS (td fr) in
    let hf := computeHighFreqAvg (fd fr) in
    (blowing rms hf (baselineRMS s) (baselineHF s), s, [CallIsBlowing s]).

(** [tick] of [loopDetect]; [&&] reads [calibrated] only when the
    candle is not out. *)
Definition tick (fr : Frame) : M unit :=
  isOut <- classList_contains_out ;;
  if negb isOut then
    c <- read_calibrated ;;
    if c then
      b <- isBlowing fr ;;
      if b then classList_add_out else ret tt
    else ret tt
  else ret tt.

(** The number of times a log records [classList.add("out")]. *)
Definition is_AddOut (e : Event) : bool :=
  match e with
  | AddOut => true
  | CallIsBlowing _ => false
  end.

Definition fired (log : list Event) : nat := length (filter is_AddOut log).

(** [loopDetect()]: one [tick] per animation frame, for as long as the
    host delivers them; [frames] lists what the analyser holds at each. *)
Fixpoint loopDetect (frames : list Frame) : M unit :=
  match frames with
  | [] => ret tt
  | fr :: rest => tick fr ;; loopDetect rest
  end.

(** [calibrate().then(loopDetect)] of [startAnalyser]. *)
Definition startAnalyser (t0 : num) (env : list Sample)
  (frames : list Frame) : M unit :=
  fun s =>
    let s' := calibrate t0 env s in
    if calibrated s' then loopDetect frames s' else (tt, s', []).

End Pipeline.

(** ** Sample inputs

    A silent and a saturated one-sample frame, a frame with a hiss in
    its band, and calibration runs of three and of two animation
    frames started at time 0. *)

Definition quiet : Frame := {| td := [x80]; fd := [x00] |}.
Definition loud : Frame := {| td := [x00]; fd := [x00] |}.
Definition hiss : Frame := {| td := [x80]; fd := [xff; xff] |}.

Definition odd_run : list Sample :=
  [ {| frame := quiet; clock := Fin 400 |};
    {| frame := loud; clock := Fin 800 |};
    {| frame := quiet; clock := Fin 1300 |} ].

Definition even_run : list Sample :=
  [ {| frame := quiet; clock := Fin 600 |};
    {| frame := loud; clock := Fin 1300 |} ].

(** A session after calibration, before and after the candle went
    out. *)
Definition armed : Session :=
  {| baselineRMS := Fin 0; baselineHF := Fin 0;
     calibrated := true; out := false |}.
Definition triggered : Session :=
  {| baselineRMS := Fin 0; baselineHF := Fin 0;
     calibrated := true; out := true |}.

(** ** Reading a log and a sample sequence *)

(** The number of times a log records a call of [isBlowing]. *)
Definition is_Call (e : Event) : bool := negb (is_AddOut e).

Definition calls (log : list Event) : nat := length (filter is_Call log).

(** The elements of [l] up to and including the first that satisfies
    [p]. *)
Fixpoint upto_first {A : Type} (p : A -> bool) (l : list A) : list A :=
  match l with
  | [] => []
  | x :: l' => x :: (if p x then [] else upto_first p l')
  end.

(** How many of the samples [buf] are [<= c]. *)
Definition count_le (c : num) (buf : list num) : nat :=
  length (filter (fun a => JS.le a c) buf).

(** The sum of the bytes of a buffer, as an integer. *)
Definition byte_sum (a : Uint8Array) : Z :=
  fold_right Z.add 0%Z (map byte_val a).

(** ** Acquiring the microphone

    [initMic], [createGestureGate] and its handler [start] are
    asynchronous: each runs until its next [await] and is resumed by
    the host.  The page state below holds the script variables
    [started] and [overlay], the calls of [initMic] that are suspended
    at an [await], a counter of the calls of [createGestureGate] and a
    counter of the calls of [startAnalyser] that ran to their end; the
    host's moves are the inputs.

    The try block of [initMic] can throw after the stream has arrived:
    at [new AudioContext()] in [initMic] or in [startAnalyser], or at
    [createMediaStreamSource(stream)] inside [startAnalyser].  Wherever
    that happens control goes to the [catch] block, and
    [calibrate().then(loopDetect)], the last statement of
    [startAnalyser], is not reached: a call of [startAnalyser] that
    throws part-way is a failed attempt here, whatever it has assigned
    before (the audio contexts below follow those assignments).
    [calibrate()] itself does not throw: what its executor throws
    rejects the promise. *)

(** Where a call of [initMic] is suspended: at
    [await navigator.mediaDevices.getUserMedia(...)] or at
    [await audioContext.resume()]. *)
Inductive Stage : Type :=
| AwaitStream
| AwaitResume.

Record Activation : Type := {
  fromGesture : bool;
  stage : Stage
}.

Record Page : Type := {
  started : bool;
  overlay : bool;              (* the variable overlay is not null *)
  overlays : nat;              (* gate elements in the document *)
  pending : list Activation;   (* suspended calls of initMic, oldest first *)
  gates : nat;                 (* calls of createGestureGate so far *)
  completed : nat              (* calls of startAnalyser that ran to their
                                   end, calibrate().then(loopDetect) *)
}.

Inductive Input : Type :=
| GotStream (suspended ok : bool)
    (* getUserMedia resolves; [suspended] is whether
       audioContext.state === "suspended" then; [ok] whether the rest of
       the try block runs without throwing, so that startAnalyser is
       called and runs to its end; when [ok] is false startAnalyser may
       have been entered and have thrown part-way *)
| NoStream
    (* getUserMedia rejects *)
| ResumeSettled (ok : bool)
    (* audioContext.resume() settles, either way; [ok] as above *)
| TapGate.
    (* a touchend or a click on a gate element *)

(** [createGestureGate()] *)
Definition createGestureGate (p : Page) : Page :=
  {| started := started p; overlay := true; overlays := S (overlays p);
     pending := pending p; gates := S (gates p);
     completed := completed p |}.

(** The [catch] block of [initMic]. *)
Definition initMic_catch (gesture : bool) (p : Page) : Page :=
  if gesture then p else createGestureGate p.

(** [initMic(fromGesture)] up to its first [await]. *)
Definition initMic (gesture : bool) (p : Page) : Page :=
  {| started := started p; overlay := overlay p; overlays := overlays p;
     pending := pending p ++ [{| fromGesture := gesture;
                                 stage := AwaitStream |}];
     gates := gates p; completed := completed p |}.

(** [start] after [await initMic(true)]:
    [if (overlay && overlay.parentNode) ...removeChild(overlay);
     overlay = null]. *)
Definition start_resume (p : Page) : Page :=
  {| started := started p; overlay := false;
     overlays := if overlay p then Nat.pred (overlays p) else overlays p;
     pending := pending p; gates := gates p; completed := completed p |}.

(** [start], the handler of the gate, up to its [await]. *)
Definition start (p : Page) : Page :=
  if started p then p
  else initMic true
         {| started := true; overlay := overlay p; overlays := overlays p;
            pending := pending p; gates := gates p;
            completed := completed p |}.

(** The end of a call of [initMic].  When nothing throws,
    [startAnalyser(stream)] runs to its end and is counted; when
    something throws, in [initMic] or part-way through [startAnalyser],
    the [catch] block runs and nothing is counted.  The call made by
    [start] then resumes [start]. *)
Definition initMic_finish (ok : bool) (a : Activation) (p : Page) : Page :=
  let p1 :=
    if ok then
      {| started := started p; overlay := overlay p;
         overlays := overlays p; pending := pending p; gates := gates p;
         completed := S (completed p) |}
    else initMic_catch (fromGesture a) p in
  if fromGesture a then start_resume p1 else p1.

Definition set_pending (l : list Activation) (p : Page) : Page :=
  {| started := started p; overlay := overlay p; overlays := overlays p;
     pending := l; gates := gates p; completed := completed p |}.

(** One move of the host.  A settled promise resumes the oldest
    suspended call if that is what it waits for; a tap reaches [start]
    only while a gate element is in the document. *)
Definition deliver (i : Input) (p : Page) : Page :=
  match i, pending p with
  | TapGate, _ => if Nat.eqb (overlays p) 0 then p else start p
  | NoStream, a :: rest =>
      match stage a with
      | AwaitStream => initMic_finish false a (set_pending rest p)
      | AwaitResume => p
      end
  | GotStream suspended ok, a :: rest =>
      match stage a with
      | AwaitStream =>
          if suspended then
            set_pending ({| fromGesture := fromGesture a;
                            stage := AwaitResume |} :: rest) p
          else initMic_finish ok a (set_pending rest p)
      | AwaitResume => p
      end
  | ResumeSettled ok, a :: rest =>
      match stage a with
      | AwaitResume => initMic_finish ok a (set_pending rest p)
      | AwaitStream => p
      end
  | _, [] => p
  end.

(** The page once the script has run: the variables as declared, and
    [initMic(false)] suspended. *)
Definition page_loaded : Page :=
  initMic false
    {| started := false; overlay := false; overlays := 0; pending := [];
       gates := 0; completed := 0 |}.

Definition page_after (inputs : list Input) : Page :=
  fold_left (fun p i => deliver i p) inputs page_loaded.

(** The page as a machine of five phases, to compare [deliver] with:
    the load-time attempt is under way; it got the microphone; it
    failed and the gate is shown; the attempt of the first tap is under
    way; that attempt has ended, with the microphone or without. *)
Inductive Phase : Type :=
| Loading (st : Stage)
| Running
| Gated
| Attempting (st : Stage)
| Settled (got : bool).

Definition page_of_phase (ph : Phase) : Page :=
  match ph with
  | Loading st =>
      {| started := false; overlay := false; overlays := 0;
         pending := [{| fromGesture := false; stage := st |}];
         gates := 0; completed := 0 |}
  | Running =>
      {| started := false; overlay := false; overlays := 0;
         pending := []; gates := 0; completed := 1 |}
  | Gated =>
      {| started := false; overlay := true; overlays := 1;
         pending := []; gates := 1; completed := 0 |}
  | Attempting st =>
      {| started := true; overlay := true; overlays := 1;
         pending := [{| fromGesture := true; stage := st |}];
         gates := 1; completed := 0 |}
  | Settled got =>
      {| started := true; overlay := false; overlays := 0;
         pending := []; gates := 1;
         completed := if got then 1 else 0 |}
  end.

Definition phase_step (i : Input) (ph : Phase) : Phase :=
  match ph, i with
  | Loading AwaitStream, GotStream true _ => Loading AwaitResume
  | Loading AwaitStream, GotStream false ok => if ok then Running else Gated
  | Loading AwaitStream, NoStream => Gated
  | Loading AwaitResume, ResumeSettled ok => if ok then Running else Gated
  | Gated, TapGate => Attempting AwaitStream
  | Attempting AwaitStream, GotStream true _ => Attempting AwaitResume
  | Attempting AwaitStream, GotStream false ok => Settled ok
  | Attempting AwaitStream, NoStream => Settled false
  | Attempting AwaitResume, ResumeSettled ok => Settled ok
  | _, _ => ph
  end.

Definition phase_after (inputs : list Input) : Phase :=
  fold_left (fun ph i => phase_step i ph) inputs (Loading AwaitStream).

(** ** The audio contexts

    The variable [audioContext] and the contexts that [initMic],
    [startAnalyser] and [tryResume] create and resume.  A context is
    named by its rank of creation; whether a context is suspended is
    the host's business and comes with each input. *)

Record Audio : Type := {
  audioContext : option nat;     (* the variable audioContext *)
  contexts : nat;                (* contexts created so far *)
  resumes : list (nat * bool);   (* resume() calls, latest first: the
                                    context, and whether initMic made
                                    the call (true) or tryResume *)
  analyser_ctx : option nat      (* the context of the analyser *)
}.

(** The variables as declared. *)
Definition no_audio : Audio :=
  {| audioContext := None; contexts := 0; resumes := [];
     analyser_ctx := None |}.

(** [if (!audioContext) audioContext = new AudioContext()] *)
Definition initMic_context (a : Audio) : Audio :=
  match audioContext a with
  | Some _ => a
  | None =>
      {| audioContext := Some (contexts a); contexts := S (contexts a);
         resumes := resumes a; analyser_ctx := analyser_ctx a |}
  end.

(** [if (audioContext.state === "suspended") await audioContext.resume()],
    by whom. *)
Definition resume_if (suspended by_initMic : bool) (a : Audio) : Audio :=
  match audioContext a with
  | Some c =>
      if suspended then
        {| audioContext := audioContext a; contexts := contexts a;
           resumes := (c, by_initMic) :: resumes a;
           analyser_ctx := analyser_ctx a |}
      else a
  | None => a
  end.

(** [audioContext = new AudioContext();
     analyser = audioContext.createAnalyser()] of [startAnalyser]. *)
Definition startAnalyser_context (a : Audio) : Audio :=
  {| audioContext := Some (contexts a); contexts := S (contexts a);
     resumes := resumes a; analyser_ctx := Some (contexts a) |}.

(** [tryResume()] *)
Definition tryResume (suspended : bool) (a : Audio) : Audio :=
  resume_if suspended false a.

(** Every context that the variable or a log entry names has been
    created. *)
Definition audio_named (a : Audio) : Prop :=
  (forall c, audioContext a = Some c -> (c < contexts a)%nat)
  /\ (forall c b, In (c, b) (resumes a) -> (c < contexts a)%nat).

(** Moreover the analyser, once there is one, is on the context that
    [audioContext] holds. *)
Definition audio_ok (a : Audio) : Prop :=
  audio_named a
  /\ (forall c, analyser_ctx a = Some c -> audioContext a = Some c).

(** The operations are the stretches of the script that touch the
    contexts, cut where a call can be suspended or can throw.  A call
    of [initMic] whose stream has arrived does [EnsureContext], then
    [InitMicResume], where it is suspended while [resume()] is
    awaited, then [StartAnalyser]; it stops before [EnsureContext] or
    before [StartAnalyser] when the [new AudioContext()] there throws,
    and a call of [startAnalyser] that throws later, at
    [createMediaStreamSource(stream)], has done [StartAnalyser].
    [createAnalyser()] on the context just created is taken not to
    throw, so lines 41 and 42 are one operation.  Taps on the body
    come at any time.  The operations may follow each other in any
    order, which allows for every path of the script. *)
Inductive AudioOp : Type :=
| EnsureContext                      (* lines 121 to 123 of initMic *)
| InitMicResume (suspended : bool)   (* lines 124 to 126 of initMic *)
| StartAnalyser                      (* lines 41 and 42 of startAnalyser *)
| BodyTap (suspended : bool).        (* touchend or click on the body *)

Definition audio_step (o : AudioOp) (a : Audio) : Audio :=
  match o with
  | EnsureContext => initMic_context a
  | InitMicResume suspended => resume_if suspended true a
  | StartAnalyser => startAnalyser_context a
  | BodyTap suspended => tryResume suspended a
  end.

Definition audio_after (ops : list AudioOp) : Audio :=
  fold_left (fun a o => audio_step o a) ops no_audio.

(** ** The page as a whole

    The session variables together with the page, under every move of
    the host: it settles the promises of [initMic], delivers taps, runs
    the callbacks passed to [requestAnimationFrame] and the callback
    passed to [then].  Several calls of [calibrate] and several loops
    could be under way at once as far as the script text goes, so the
    state holds a queue of calibrations and a count of loops.  Each
    callback is a move of its own: the script runs the first [step]
    inside [calibrate()] and the callback of [then] right after
    [resolve()], which are two of the orders the moves allow.  Taps on
    the body reach [tryResume] only, which touches none of these
    variables. *)

(** A call of [calibrate] whose promise is pending: its [t0] and what
    its [rmsBuf] and [hfBuf] hold. *)
Record Calibration : Type := {
  cal_t0 : num;
  cal_rmsBuf : list num;
  cal_hfBuf : list num
}.

Record World : Type := {
  page : Page;
  session : Session;
  calibrating : list Calibration;   (* calls of calibrate whose step is
                                       due, in the order the steps run *)
  resolved : nat;                   (* promises of calibrate resolved whose
                                       then(loopDetect) has not run *)
  loops : nat                       (* ticks requested and not cancelled *)
}.

Inductive Move : Type :=
| Host (i : Input) (now : num)
    (* a move on the page; [now] is what performance.now() returns if
       the move makes startAnalyser run to its end *)
| StepFrame (e : Sample)
    (* the step of the oldest pending calibrate runs and finds [e]: the
       first one inside calibrate() itself, the later ones as animation
       frames *)
| ThenLoopDetect (fr : Frame)
    (* the callback of then runs loopDetect; the analyser holds [fr] *)
| TickFrame (fr : Frame).
    (* an animation frame runs a requested tick; the analyser holds
       [fr] *)

Section WholePage.
Context {RD : Rounding}.
Local Open Scope num_scope.

(** [calibrate()] up to the first call of [step]. *)
Definition calibrate_start (now : num) (w : World) : World :=
  {| page := page w;
     session := {| baselineRMS := baselineRMS (session w);
                   baselineHF := baselineHF (session w);
                   calibrated := false;
                   out := out (session w) |};
     calibrating := calibrating w
                    ++ [{| cal_t0 := now; cal_rmsBuf := [];
                           cal_hfBuf := [] |}];
     resolved := resolved w;
     loops := loops w |}.

(** A move on the page; [startAnalyser] ends with
    [calibrate().then(loopDetect)] when it runs to its end. *)
Definition host (i : Input) (now : num) (w : World) : World :=
  let w' :=
    {| page := deliver i (page w); session := session w;
       calibrating := calibrating w; resolved := resolved w;
       loops := loops w |} in
  if Nat.ltb (completed (page w)) (completed (deliver i (page w)))
  then calibrate_start now w' else w'.

(** One run of [step] for the oldest pending call of [calibrate]. *)
Definition step_frame (e : Sample) (w : World) : World :=
  match calibrating w with
  | [] => w
  | c :: rest =>
      let rmsBuf := cal_rmsBuf c ++ [computeRMS (td (frame e))] in
      let hfBuf := cal_hfBuf c ++ [computeHighFreqAvg (fd (frame e))] in
      if clock e - cal_t0 c < JS.lit 1200 then
        {| page := page w; session := session w;
           calibrating := rest ++ [{| cal_t0 := cal_t0 c;
                                      cal_rmsBuf := rmsBuf;
                                      cal_hfBuf := hfBuf |}];
           resolved := resolved w; loops := loops w |}
      else
        {| page := page w;
           session := {| baselineRMS := baseline_of rmsBuf;
                         baselineHF := baseline_of hfBuf;
                         calibrated := true;
                         out := out (session w) |};
           calibrating := rest;
           resolved := S (resolved w);
           loops := loops w |}
  end.

(** [loopDetect()] as the callback of [then]:
    [cancelAnimationFrame(rafId)] cancels the tick requested last, if
    any; the first tick runs at once and requests the next. *)
Definition then_loopDetect (fr : Frame) (w : World) : World :=
  match resolved w with
  | O => w
  | S n =>
      {| page := page w; session := final (tick fr (session w));
         calibrating := calibrating w; resolved := n;
         loops := S (Nat.pred (loops w)) |}
  end.

(** A requested [tick] runs and requests the next. *)
Definition tick_frame (fr : Frame) (w : World) : World :=
  match loops w with
  | O => w
  | S _ =>
      {| page := page w; session := final (tick fr (session w));
         calibrating := calibrating w; resolved := resolved w;
         loops := loops w |}
  end.

Definition world_step (m : Move) (w : World) : World :=
  match m with
  | Host i now => host i now w
  | StepFrame e => step_frame e w
  | ThenLoopDetect fr => then_loopDetect fr w
  | TickFrame fr => tick_frame fr w
  end.

(** The page once the script has run. *)
Definition world_loaded (candle_out : bool) : World :=
  {| page := page_loaded; session := initial candle_out;
     calibrating := []; resolved := 0; loops := 0 |}.

Definition world_after (candle_out : bool) (moves : list Move) : World :=
  fold_left (fun w m => world_step m w) moves (world_loaded candle_out).

End WholePage.

(** The three stages of detection that the page goes through: no call
    of [startAnalyser] has run to its end; one has and its calibration
    is under way; the calibration has completed. *)
Definition world_idle (w : World) : Prop :=
  completed (page w) = 0%nat /\ calibrating w = [] /\ resolved w = 0%nat
  /\ loops w = 0%nat /\ calibrated (session w) = false.

Definition world_calibrating (w : World) : Prop :=
  completed (page w) = 1%nat /\ (exists c, calibrating w = [c])
  /\ resolved w = 0%nat /\ loops w = 0%nat
  /\ calibrated (session w) = false.

Definition world_detecting (w : World) : Prop :=
  completed (page w) = 1%nat /\ calibrating w = []
  /\ (resolved w + loops w = 1)%nat /\ calibrated (session w) = true.

Definition world_ok (w : World) : Prop :=
  (exists ph, page w = page_of_phase ph)
  /\ (world_idle w \/ world_calibrating w \/ world_detecting w).

(** ** The first version of the detector

    The earlier script of the repository: no calibration, one
    threshold on the mean of all frequency bins, polled by
    [setInterval(blowOutCandle, 200)]. *)

Module Legacy.
Section Detector.
Context {RD : Rounding}.
Local Open Scope num_scope.

(** [isBlowing()], with [dataArray] as the analyser fills it. *)
Definition isBlowing (dataArray : Uint8Array) : bool :=
  let sum :=
    fold_left (fun sum b => sum + Fin (IZR (byte_val b))) dataArray
              (JS.lit 0) in
  let average := sum / JS.of_nat (length dataArray) in
  average > JS.lit 40.

(** [blowOutCandle()] on the class of the candle: [&&] reads the
    analyser only when the candle is not out. *)
Definition blowOutCandle (dataArray : Uint8Array) (out : bool) : bool :=
  if negb out && isBlowing dataArray then true else out.

(** The timer: one call per interval. *)
Definition poll (reads : list Uint8Array) (out : bool) : bool :=
  fold_left (fun o d => blowOutCandle d o) reads out.

End Detector.
End Legacy.

(** * Properties *)

(** ** Rounding and comparisons *)

Lemma Rgtb_true_iff (x y : R) : Rgtb x y = true <-> x > y.
Proof. unfold Rgtb; destruct (Rgt_dec x y); split; intros; try easy. Qed.

Lemma Rgtb_false_iff (x y : R) : Rgtb x y = false <-> x <= y.
Proof.
  unfold Rgtb; destruct (Rgt_dec x y); split; intros; try easy; lra.
Qed.

Lemma Reqb_true_iff (x y : R) : Reqb x y = true <-> x = y.
Proof. unfold Reqb; destruct (Req_dec_T x y); split; intros; easy. Qed.

Lemma Reqb_false_iff (x y : R) : Reqb x y = false <-> x <> y.
Proof. unfold Reqb; destruct (Req_dec_T x y); split; intros; easy. Qed.

(** Decide every real comparison in the goal, one branch per outcome. *)
Ltac rcases :=
  repeat match goal with
    | |- context [Rgtb ?x ?y] =>
        let H := fresh "Hc" in
        destruct (Rgtb x y) eqn:H;
        [apply Rgtb_true_iff in H | apply Rgtb_false_iff in H]
    | |- context [Reqb ?x ?y] =>
        let H := fresh "Hc" in
        destruct (Reqb x y) eqn:H;
        [apply Reqb_true_iff in H | apply Reqb_false_iff in H]
    end.

Section RoundingFacts.
Context {RD : Rounding}.

Lemma rnd_0 : rnd 0 = 0.
Proof. apply (rnd_int 0); simpl; lia. Qed.

Lemma rnd_nonneg (x : R) : 0 <= x -> 0 <= rnd x.
Proof. intros H; rewrite <- rnd_0; apply rnd_mono, H. Qed.

Lemma rnd_le_int (x : R) (k : Z) :
  (Z.abs k <= 2 ^ 53)%Z -> x <= IZR k -> rnd x <= IZR k.
Proof. intros Hk H; rewrite <- (rnd_int k Hk); apply rnd_mono, H. Qed.

Lemma rnd_ge_int (x : R) (k : Z) :
  (Z.abs k <= 2 ^ 53)%Z -> IZR k <= x -> IZR k <= rnd x.
Proof. intros Hk H; rewrite <- (rnd_int k Hk); apply rnd_mono, H. Qed.

Lemma exact_upto_small (N : Z) : (N <= 2 ^ 53)%Z -> exact_upto N.
Proof. intros HN k Hk; apply rnd_int; lia. Qed.

Lemma rnd_le_exact (N k : Z) (x : R) :
  exact_upto N -> (0 <= k <= N)%Z -> x <= IZR k -> rnd x <= IZR k.
Proof. intros HN Hk H; rewrite <- (HN k Hk); apply rnd_mono, H. Qed.

(** The rounded difference of two representable reals is positive
    exactly when the difference is: the comparator [(a,b) => a - b]
    orders numbers as [>] does. *)
Lemma rnd_sub_pos (x y : R) :
  rnd x = x -> rnd y = y -> (rnd (x - y) > 0 <-> x > y).
Proof.
  intros Hx Hy; split; intros H.
  - destruct (Rle_or_lt x y) as [Hle | Hlt]; [ | exact Hlt].
    assert (rnd (x - y) <= 0) by (rewrite <- rnd_0; apply rnd_mono; lra).
    lra.
  - destruct (rnd_nonneg (x - y)) as [Hlt | Heq]; [lra | exact Hlt | ].
    symmetry in Heq; apply (rnd_sub x y Hx Hy) in Heq; lra.
Qed.

Lemma is_number_not_NaN (a : num) : is_number a -> a <> NaN.
Proof. destruct a; cbn; easy. Qed.

Lemma is_number_int (k : Z) :
  (Z.abs k <= 2 ^ 53)%Z -> is_number (Fin (IZR k)).
Proof. intros Hk; cbn; apply rnd_int, Hk. Qed.

(** What [*] and [/] return, when finite, is representable. *)
Lemma mul_is_number (a b : num) (x : R) :
  JS.mul a b = Fin x -> rnd x = x.
Proof.
  destruct a, b; cbn; unfold JS.scale_inf; rcases; cbn;
    try discriminate; intros [= <-]; apply rnd_idem.
Qed.

Lemma div_is_number (a b : num) (x : R) :
  JS.div a b = Fin x -> rnd x = x.
Proof.
  destruct a, b; cbn; unfold JS.scale_inf; rcases; cbn;
    try discriminate; intros [= <-];
    first [apply rnd_idem | apply rnd_0].
Qed.

Lemma lit_int (k : Z) :
  (Z.abs k <= 2 ^ 53)%Z -> JS.lit (IZR k) = Fin (IZR k).
Proof. intros Hk; unfold JS.lit; rewrite rnd_int by exact Hk; reflexivity. Qed.

End RoundingFacts.

(** Rewrite the integer literals of the source to their exact values. *)
Ltac exact_lits :=
  repeat match goal with
    | |- context [JS.lit (IZR ?k)] =>
        rewrite (lit_int k) by (simpl; lia)
    end.

(** ** Feature extraction *)

Lemma byte_val_range (b : byte) : (0 <= byte_val b <= 255)%Z.
Proof.
  unfold byte_val; pose proof (Byte.to_N_bounded b); lia.
Qed.

Section ExtractionFacts.
Context {RD : Rounding}.
Local Open Scope num_scope.

(** The centred sample [v] of [computeRMS] is a finite number of
    magnitude at most 1. *)
Lemma centred_sample (b : byte) :
  exists v : R,
    (Fin (IZR (byte_val b)) - JS.lit 128) / JS.lit 128 = Fin v
    /\ (-1 <= v <= 1)%R.
Proof.
  pose proof (byte_val_range b) as Hb.
  exact_lits; cbn [JS.sub].
  rewrite <- minus_IZR, rnd_int by lia.
  cbn [JS.div]; rcases; [lra | ].
  eexists; split; [reflexivity | ].
  assert (H1 : (IZR (-128) <= IZR (byte_val b - 128) <= IZR 127)%R)
    by (split; apply IZR_le; lia).
  split.
  - apply (rnd_ge_int _ (-1)); [simpl; lia | lra].
  - apply (rnd_le_int _ 1); [simpl; lia | lra].
Qed.

(** One round of the loop keeps [sumSq] finite and non-negative, and
    adds at most 1 to it. *)
Lemma rms_step_bounds (a : R) (b : byte) :
  (0 <= a)%R ->
  exists a' : R,
    rms_step (Fin a) b = Fin a' /\ (0 <= a')%R
    /\ forall N k : Z, exact_upto N -> (0 <= k < N)%Z -> (a <= IZR k)%R ->
                       (a' <= IZR (k + 1))%R.
Proof.
  intros Ha; unfold rms_step.
  destruct (centred_sample b) as (v & -> & Hv).
  cbn [JS.mul JS.add].
  assert (Hsq : (0 <= rnd (v * v) <= 1)%R).
  { split.
    - apply rnd_nonneg; nra.
    - apply (rnd_le_int _ 1); [simpl; lia | nra]. }
  eexists; split; [reflexivity | split].
  - apply rnd_nonneg; lra.
  - intros N k HN Hk Hak; apply (rnd_le_exact N); [exact HN | lia | ].
    rewrite plus_IZR; lra.
Qed.

Lemma sumSq_bounds (uint8 : Uint8Array) :
  forall (a : R) (k : Z),
    (0 <= a)%R ->
    exists a' : R,
      fold_left rms_step uint8 (Fin a) = Fin a' /\ (0 <= a')%R
      /\ (forall N : Z,
             exact_upto N ->
             (0 <= k)%Z -> (k + Z.of_nat (length uint8) <= N)%Z ->
             (a <= IZR k)%R -> (a' <= IZR (k + Z.of_nat (length uint8)))%R).
Proof.
  induction uint8 as [ | b rest IH]; intros a k Ha.
  - exists a; cbn [fold_left length]; repeat split; try assumption.
    intros _ _ _ _ H; rewrite Z.add_0_r; exact H.
  - destruct (rms_step_bounds a b Ha) as (a1 & E1 & Ha1 & Hup1).
    destruct (IH a1 (k + 1)%Z Ha1) as (a' & E' & Ha' & Hup').
    exists a'; cbn [fold_left]; rewrite E1; repeat split; try assumption.
    intros N HN Hk Hlen Hak; cbn [length] in Hlen |- *.
    replace (k + Z.of_nat (S (length rest)))%Z
      with (k + 1 + Z.of_nat (length rest))%Z by lia.
    apply (Hup' N HN); [lia | lia | ].
    apply (Hup1 N); [exact HN | lia | exact Hak].
Qed.

(** On a non-empty buffer [computeRMS] is a finite non-negative
    number. *)
Lemma computeRMS_finite (uint8 : Uint8Array) :
  uint8 <> [] ->
  exists x : R, computeRMS uint8 = Fin x /\ (0 <= x)%R.
Proof.
  intros Hne; unfold computeRMS.
  exact_lits.
  destruct (sumSq_bounds uint8 0 0 (Rle_refl 0)) as (a & -> & Ha & _).
  assert (Hlen : (0 < INR (length uint8))%R).
  { apply lt_0_INR; destruct uint8; [congruence | simpl; lia]. }
  unfold JS.of_nat; cbn [JS.div]; rcases; [lra | ].
  assert (Hm : (0 <= rnd (a / INR (length uint8)))%R).
  { apply rnd_nonneg, Rmult_le_pos; [exact Ha | ].
    left; apply Rinv_0_lt_compat, Hlen. }
  cbn [JS.sqrt]; rcases; [lra | ].
  cbn [JS.mul]; eexists; split; [reflexivity | ].
  apply rnd_nonneg, Rmult_le_pos; [ | lra].
  apply rnd_nonneg, sqrt_pos.
Qed.

(** As long as the count of samples is itself exact, [computeRMS] does
    not exceed 100. *)
Lemma computeRMS_le_100 (uint8 : Uint8Array) (x : R) :
  exact_upto (Z.of_nat (length uint8)) ->
  computeRMS uint8 = Fin x -> (x <= 100)%R.
Proof.
  intros Hlen; unfold computeRMS.
  exact_lits.
  destruct (sumSq_bounds uint8 0 0 (Rle_refl 0)) as (a & -> & Ha & Hup).
  specialize (Hup _ Hlen (Z.le_refl 0) ltac:(lia) (Rle_refl 0)).
  rewrite Z.add_0_l, <- INR_IZR_INZ in Hup.
  unfold JS.of_nat; cbn [JS.div]; rcases.
  - (* the empty buffer: 0 / 0 *)
    assert (a = 0)%R by lra; subst a.
    unfold JS.scale_inf; rcases; try lra.
    cbn; discriminate.
  - assert (Hpos : (0 < INR (length uint8))%R).
    { pose proof (pos_INR (length uint8)); lra. }
    assert (Hm : (0 <= rnd (a / INR (length uint8)) <= 1)%R).
    { split.
      - apply rnd_nonneg, Rmult_le_pos; [exact Ha | ].
        left; apply Rinv_0_lt_compat, Hpos.
      - apply (rnd_le_int _ 1); [simpl; lia | ].
        apply (Rmult_le_reg_r (INR (length uint8))); [exact Hpos | ].
        unfold Rdiv; rewrite Rmult_assoc, Rinv_l by lra; lra. }
    cbn [JS.sqrt]; rcases; [lra | ].
    cbn [JS.mul]; intros [= <-].
    apply (rnd_le_int _ 100); [simpl; lia | ].
    assert (Hs : (rnd (sqrt (rnd (a / INR (length uint8)))) <= 1)%R).
    { apply (rnd_le_int _ 1); [simpl; lia | ].
      rewrite <- sqrt_1; apply sqrt_le_1_alt; lra. }
    lra.
Qed.

End ExtractionFacts.

Lemma Int_part_nonneg (r : R) : 0 <= r -> (0 <= Int_part r)%Z.
Proof.
  intros Hr; destruct (base_Int_part r) as [_ H].
  assert (Hlt : IZR (-1) < IZR (Int_part r)) by lra.
  apply lt_IZR in Hlt; lia.
Qed.

Lemma Int_part_le (r : R) (k : Z) : r <= IZR k -> (Int_part r <= k)%Z.
Proof.
  intros Hr; destruct (base_Int_part r) as [H _].
  apply le_IZR; lra.
Qed.

Lemma band_length (start stop : Z) :
  length (band start stop) = Z.to_nat (stop - start).
Proof. unfold band; rewrite length_map, length_seq; reflexivity. Qed.

Lemma band_range (start stop i : Z) :
  In i (band start stop) -> (start <= i < stop)%Z.
Proof.
  unfold band; rewrite in_map_iff; intros (k & <- & Hk).
  apply in_seq in Hk; lia.
Qed.

Lemma get_in_range (a : Uint8Array) (i : Z) :
  (0 <= i < Z.of_nat (length a))%Z ->
  exists b : byte, get a i = Fin (IZR (byte_val b)).
Proof.
  intros Hi; unfold get.
  destruct (Z.ltb_spec i 0) as [Hneg | _]; [lia | ].
  destruct (nth_error a (Z.to_nat i)) as [b | ] eqn:E.
  - exists b; reflexivity.
  - apply nth_error_None in E; lia.
Qed.

Section BandFacts.
Context {RD : Rounding}.
Local Open Scope num_scope.

Lemma band_start_nonneg (L : nat) : (0 <= band_start L)%Z.
Proof.
  unfold band_start, JS.floor; apply Int_part_nonneg, rnd_nonneg.
  apply Rmult_le_pos; [apply pos_INR | apply rnd_nonneg; lra].
Qed.

(** The band ends inside the buffer, the length being exact. *)
Lemma band_end_le (L : nat) :
  exact_upto (Z.of_nat L) -> (band_end L <= Z.of_nat L)%Z.
Proof.
  intros HL; unfold band_end, JS.floor.
  apply Int_part_le, (rnd_le_exact (Z.of_nat L)); [exact HL | lia | ].
  rewrite <- INR_IZR_INZ.
  assert (H9 : (rnd 0.9 <= 1)%R)
    by (apply (rnd_le_int _ 1); [simpl; lia | lra]).
  pose proof (pos_INR L); nra.
Qed.

(** The loop of [computeHighFreqAvg] over indices inside the buffer
    keeps [sum] finite and non-negative, and adds at most 255 a
    round. *)
Lemma hf_sum_bounds (freqData : Uint8Array) (idx : list Z) :
  Forall (fun i => (0 <= i < Z.of_nat (length freqData))%Z) idx ->
  forall (a : R) (m : Z),
    (0 <= a)%R ->
    exists a' : R,
      fold_left (fun sum i => sum + get freqData i) idx (Fin a) = Fin a'
      /\ (0 <= a')%R
      /\ (forall N : Z,
             exact_upto N ->
             (0 <= m)%Z -> (m + 255 * Z.of_nat (length idx) <= N)%Z ->
             (a <= IZR m)%R ->
             (a' <= IZR (m + 255 * Z.of_nat (length idx)))%R).
Proof.
  induction 1 as [ | i idx Hi _ IH]; intros a m Ha.
  - exists a; cbn [fold_left length]; repeat split; try assumption.
    intros _ _ _ _ H0; rewrite Z.mul_0_r, Z.add_0_r; exact H0.
  - destruct (get_in_range freqData i Hi) as (b & Eb).
    pose proof (byte_val_range b) as Hb.
    assert (Hv : (0 <= IZR (byte_val b) <= 255)%R)
      by (split; apply IZR_le; lia).
    set (a1 := rnd (a + IZR (byte_val b))).
    assert (Ha1 : (0 <= a1)%R) by (apply rnd_nonneg; lra).
    destruct (IH a1 (m + 255)%Z Ha1) as (a' & E' & Ha' & Hup').
    exists a'; cbn [fold_left]; rewrite Eb; cbn [JS.add]; fold a1.
    repeat split; try assumption.
    intros N HN Hm Hlen Ham; cbn [length] in Hlen |- *.
    replace (m + 255 * Z.of_nat (S (length idx)))%Z
      with (m + 255 + 255 * Z.of_nat (length idx))%Z by lia.
    apply (Hup' N HN); [lia | lia | ].
    apply (rnd_le_exact N); [exact HN | lia | rewrite plus_IZR; lra].
Qed.

(** When the band is empty the loop body never runs, [n] stays [0] and
    the function returns the literal [0]. *)
Lemma computeHighFreqAvg_empty_band (freqData : Uint8Array) :
  (band_end (length freqData) <= band_start (length freqData))%Z ->
  computeHighFreqAvg freqData = Fin 0.
Proof.
  intros Hempty; unfold computeHighFreqAvg.
  rewrite band_length.
  replace (Z.to_nat _) with 0%nat by lia.
  unfold JS.of_nat; cbn [INR JS.truthy]; rcases; [ | lra].
  cbn [negb]; exact_lits; reflexivity.
Qed.

(** [computeHighFreqAvg] is a finite number between 0 and 255, the
    upper bound as long as the sum of the bins stays exact. *)
Lemma computeHighFreqAvg_bounds (freqData : Uint8Array) :
  exact_upto (Z.of_nat (length freqData)) ->
  exists y : R,
    computeHighFreqAvg freqData = Fin y /\ (0 <= y)%R
    /\ (exact_upto (255 * Z.of_nat (length freqData)) -> (y <= 255)%R).
Proof.
  intros HL; unfold computeHighFreqAvg; exact_lits.
  set (start := band_start (length freqData)).
  set (stop := band_end (length freqData)).
  pose proof (band_start_nonneg (length freqData)) as Hstart.
  pose proof (band_end_le (length freqData) HL) as Hstop.
  fold start in Hstart; fold stop in Hstop.
  assert (Hidx : Forall (fun i => (0 <= i < Z.of_nat (length freqData))%Z)
                        (band start stop)).
  { apply Forall_forall; intros i Hi; apply band_range in Hi; lia. }
  destruct (hf_sum_bounds freqData _ Hidx 0 0 (Rle_refl 0))
    as (a & -> & Ha & Hup).
  rewrite band_length in *.
  set (n := Z.to_nat (stop - start)) in *.
  unfold JS.of_nat; cbn [JS.truthy]; rcases; cbn [negb].
  - exists 0%R; repeat split; lra.
  - assert (Hn : (0 < INR n)%R) by (pose proof (pos_INR n); lra).
    cbn [JS.div]; rcases; [lra | ].
    eexists; split; [reflexivity | split].
    + apply rnd_nonneg, Rmult_le_pos; [exact Ha | ].
      left; apply Rinv_0_lt_compat, Hn.
    + intros Hsum.
      assert (Hnle : (Z.of_nat n <= Z.of_nat (length freqData))%Z)
        by (unfold n; lia).
      specialize (Hup _ Hsum (Z.le_refl 0) ltac:(lia) (Rle_refl 0)).
      rewrite Z.add_0_l, mult_IZR, <- INR_IZR_INZ in Hup.
      apply (rnd_le_int _ 255); [simpl; lia | ].
      apply (Rmult_le_reg_r (INR n)); [exact Hn | ].
      unfold Rdiv; rewrite Rmult_assoc, Rinv_l by lra; lra.
Qed.

End BandFacts.

(** ** Sorting and the median *)

Lemma le_antisym (a b : num) :
  JS.le a b = true -> JS.le b a = true -> a = b.
Proof.
  destruct a, b; cbn; try easy.
  rewrite !negb_true_iff, !Rgtb_false_iff.
  intros H1 H2; f_equal; lra.
Qed.

Lemma le_trans (a b c : num) :
  JS.le a b = true -> JS.le b c = true -> JS.le a c = true.
Proof.
  destruct a, b, c; cbn; try easy.
  rewrite !negb_true_iff, !Rgtb_false_iff; lra.
Qed.

Lemma not_gt_le (a b : num) :
  a <> NaN -> b <> NaN -> JS.gt a b = false -> JS.le a b = true.
Proof.
  destruct a, b; cbn; try easy.
  intros _ _ ->; reflexivity.
Qed.

Lemma gt_le (a b : num) : JS.gt a b = true -> JS.le b a = true.
Proof.
  destruct a, b; cbn; try easy.
  rewrite negb_true_iff, Rgtb_true_iff, Rgtb_false_iff; lra.
Qed.

(** An ascending list has a single arrangement. *)
Lemma ascending_order_unique (l1 : list num) :
  forall l2 : list num,
    Permutation l1 l2 -> ascending_order l1 -> ascending_order l2 ->
    l1 = l2.
Proof.
  unfold ascending_order.
  induction l1 as [ | x l1 IH]; intros l2 HP H1 H2.
  - apply Permutation_nil in HP; subst; reflexivity.
  - destruct l2 as [ | y l2].
    + apply Permutation_sym, Permutation_nil in HP; discriminate.
    + assert (Hall1 := H1); assert (Hall2 := H2).
      apply Sorted_StronglySorted in Hall1; [ | exact le_trans].
      apply Sorted_StronglySorted in Hall2; [ | exact le_trans].
      apply StronglySorted_inv in Hall1 as [_ Hx].
      apply StronglySorted_inv in Hall2 as [_ Hy].
      rewrite Forall_forall in Hx, Hy.
      assert (Exy : x = y).
      { assert (Hin1 : In x (y :: l2))
          by (eapply Permutation_in; [exact HP | left; reflexivity]).
        assert (Hin2 : In y (x :: l1))
          by (eapply Permutation_in;
              [apply Permutation_sym; exact HP | left; reflexivity]).
        destruct Hin1 as [E | Hin1]; [symmetry; exact E | ].
        destruct Hin2 as [E | Hin2]; [exact E | ].
        apply le_antisym; [apply Hx, Hin2 | apply Hy, Hin1]. }
      subst y; f_equal.
      apply IH.
      * eapply Permutation_cons_inv; exact HP.
      * apply Sorted_inv in H1; tauto.
      * apply Sorted_inv in H2; tauto.
Qed.

Lemma insert_perm (cmp : num -> num -> num) (x : num) (l : list num) :
  Permutation (x :: l) (insert cmp x l).
Proof.
  induction l as [ | y l IH]; cbn [insert].
  - apply Permutation_refl.
  - destruct (JS.gt (cmp y x) (Fin 0)).
    + apply Permutation_refl.
    + eapply perm_trans; [apply perm_swap | apply perm_skip, IH].
Qed.

Lemma sort_from_perm (cmp : num -> num -> num) (l : list num) :
  forall acc : list num,
    Permutation (l ++ acc)
                (fold_left (fun acc x => insert cmp x acc) l acc).
Proof.
  induction l as [ | x l IH]; intros acc; cbn [fold_left app].
  - apply Permutation_refl.
  - eapply perm_trans; [ | apply IH].
    eapply perm_trans; [apply Permutation_middle | ].
    apply Permutation_app_head, insert_perm.
Qed.

(** [sort] rearranges, whatever the comparator. *)
Lemma sort_perm (cmp : num -> num -> num) (l : list num) :
  Permutation l (sort cmp l).
Proof.
  unfold sort.
  eapply perm_trans; [ | apply sort_from_perm].
  rewrite app_nil_r; apply Permutation_refl.
Qed.

Lemma sort_length (cmp : num -> num -> num) (l : list num) :
  length (sort cmp l) = length l.
Proof. symmetry; apply Permutation_length, sort_perm. Qed.

Section SortFacts.
Context {RD : Rounding}.

(** On numbers the comparator [(a,b) => a - b] is positive exactly when
    [a > b]. *)
Lemma ascending_gt (a b : num) :
  is_number a -> is_number b ->
  JS.gt (ascending a b) (Fin 0) = JS.gt a b.
Proof.
  destruct a, b; cbn; try reflexivity; try easy.
  rename x into u, x0 into v; intros Hu Hv.
  rcases; try reflexivity; destruct (rnd_sub_pos u v Hu Hv) as [H1 H2];
    first [specialize (H1 ltac:(lra)) | specialize (H2 ltac:(lra))]; lra.
Qed.

Lemma insert_ascending (x : num) (l : list num) :
  is_number x -> numbers l -> ascending_order l ->
  ascending_order (insert ascending x l).
Proof.
  unfold ascending_order, numbers; intros Hx Hl Hs.
  induction l as [ | y l IH]; cbn [insert].
  - repeat constructor.
  - apply Forall_cons_iff in Hl as [Hy Hl].
    apply Sorted_inv in Hs as [Hs Hhd].
    rewrite ascending_gt by assumption.
    destruct (JS.gt y x) eqn:E.
    + constructor; [constructor; assumption | ].
      constructor; apply gt_le, E.
    + constructor; [apply IH; assumption | ].
      apply not_gt_le in E;
        [ | apply is_number_not_NaN, Hy | apply is_number_not_NaN, Hx].
      destruct l as [ | z l]; cbn [insert].
      * constructor; exact E.
      * destruct (JS.gt (ascending z x) (Fin 0)).
        -- constructor; exact E.
        -- constructor; apply HdRel_inv in Hhd; exact Hhd.
Qed.

Lemma sort_from_ascending (l : list num) :
  forall acc : list num,
    numbers l -> numbers acc -> ascending_order acc ->
    ascending_order (fold_left (fun acc x => insert ascending x acc) l acc).
Proof.
  unfold numbers.
  induction l as [ | x l IH]; intros acc Hl Hacc Hs; cbn [fold_left].
  - exact Hs.
  - apply Forall_cons_iff in Hl as [Hx Hl].
    apply IH; [exact Hl | | apply insert_ascending; assumption].
    eapply Permutation_Forall; [apply insert_perm | ].
    constructor; assumption.
Qed.

(** On numbers, sorting with [(a,b) => a - b] yields the ascending
    arrangement. *)
Lemma sort_ascending (l : list num) :
  numbers l -> ascending_order (sort ascending l).
Proof.
  intros Hl; apply sort_from_ascending; [exact Hl | constructor | constructor].
Qed.

Lemma sort_is_the_ascending_order (l s : list num) :
  numbers l -> Permutation l s -> ascending_order s ->
  sort ascending l = s.
Proof.
  intros Hl HP Hs; apply ascending_order_unique.
  - eapply perm_trans; [apply Permutation_sym, sort_perm | exact HP].
  - apply sort_ascending, Hl.
  - exact Hs.
Qed.

(** [v || 0] is [v] for every number [v] but [NaN]. *)
Lemma or_zero_number (v : num) : v <> NaN -> or_zero (Some v) = v.
Proof.
  intros Hv; destruct v; cbn; try easy.
  rcases; cbn [negb]; [ | reflexivity].
  subst x; unfold JS.lit; rewrite rnd_0; reflexivity.
Qed.

Lemma or_zero_undefined : or_zero None = Fin 0.
Proof. cbn; unfold JS.lit; rewrite rnd_0; reflexivity. Qed.

(** The baseline of a non-empty sequence of numbers is the element at
    index [floor(n/2)] of its ascending arrangement. *)
Lemma baseline_of_median (buf s : list num) :
  buf <> [] -> numbers buf -> Permutation buf s -> ascending_order s ->
  nth_error s (length buf / 2) = Some (baseline_of buf).
Proof.
  intros Hne Hnan HP Hs; unfold baseline_of.
  rewrite (sort_is_the_ascending_order buf s Hnan HP Hs).
  rewrite <- (Permutation_length HP).
  assert (Hlt : (length buf / 2 < length s)%nat).
  { rewrite <- (Permutation_length HP).
    apply Nat.div_lt; [ | lia].
    destruct buf; [congruence | cbn; lia]. }
  destruct (nth_error s (length buf / 2)) as [v | ] eqn:E.
  - rewrite or_zero_number; [reflexivity | ].
    apply nth_error_In in E.
    assert (Hs_nan : numbers s)
      by (eapply Permutation_Forall; [exact HP | exact Hnan]).
    unfold numbers in Hs_nan; rewrite Forall_forall in Hs_nan.
    apply is_number_not_NaN, Hs_nan, E.
  - apply nth_error_None in E; lia.
Qed.

Lemma baseline_of_empty : baseline_of [] = Fin 0.
Proof.
  unfold baseline_of; cbn [sort fold_left length]; apply or_zero_undefined.
Qed.

End SortFacts.

(** ** The properties of feature extraction *)

Section ExtractionProperties.
Context {RD : Rounding}.

(** C7. For every well-formed frame (two non-empty byte buffers of an
    admissible length) feature extraction is total and deterministic:
    [computeRMS] and [computeHighFreqAvg] both return a finite number,
    never [NaN], and frames with equal buffers have equal features. *)
Theorem extract_total_deterministic (fr : Frame) :
  well_formed fr ->
  (exists e t : R,
      computeRMS (td fr) = Fin e /\ computeHighFreqAvg (fd fr) = Fin t
      /\ extract fr = {| energy := Fin e; tilt := Fin t |})
  /\ (forall fr' : Frame,
         td fr' = td fr -> fd fr' = fd fr -> extract fr' = extract fr).
Proof.
  intros (Htd & _ & _ & Hfd); split.
  - destruct (computeRMS_finite (td fr) Htd) as (e & He & _).
    destruct (computeHighFreqAvg_bounds (fd fr)) as (t & Ht & _).
    { apply exact_upto_small.
      unfold array_length_ok, max_length in Hfd; lia. }
    exists e, t; unfold extract; rewrite He, Ht; auto.
  - intros fr' E1 E2; unfold extract; rewrite E1, E2; reflexivity.
Qed.

(** C8. Whenever the index range [[floor(0.35 L), floor(0.9 L))] of a
    frequency buffer of length [L] is empty, [computeHighFreqAvg]
    returns 0. *)
Theorem computeHighFreqAvg_degenerate (freqData : Uint8Array) :
  (band_end (length freqData) <= band_start (length freqData))%Z ->
  computeHighFreqAvg freqData = Fin 0.
Proof. apply computeHighFreqAvg_empty_band. Qed.

(** Both features lie in their range as long as the rounding is
    exact on the integers the two loops can reach. *)
Lemma features_bounds (uint8 freqData : Uint8Array) :
  uint8 <> [] ->
  exact_upto (Z.of_nat (length uint8)) ->
  exact_upto (255 * Z.of_nat (length freqData)) ->
  in_range (computeRMS uint8) 0 100
  /\ in_range (computeHighFreqAvg freqData) 0 255.
Proof.
  intros Hne Hlen Hsum; split.
  - destruct (computeRMS_finite uint8 Hne) as (x & Hx & Hx0).
    exists x; repeat split; try assumption.
    apply (computeRMS_le_100 uint8); [exact Hlen | exact Hx].
  - destruct (computeHighFreqAvg_bounds freqData) as (y & Hy & Hy0 & Hup).
    { intros k Hk; apply Hsum; lia. }
    exists y; repeat split; try assumption.
    apply Hup, Hsum.
Qed.

End ExtractionProperties.

Lemma exact_upto_exact_arithmetic (N : Z) :
  exact_upto (RD := exact_arithmetic) N.
Proof. intros k _; reflexivity. Qed.

(** C10. On a non-empty byte buffer [computeRMS] lies in [[0, 100]]
    and on every byte buffer [computeHighFreqAvg] lies in [[0, 255]]:
    under every rounding, for buffers whose length keeps the integer
    sums of the two loops exact, and under exact arithmetic for every
    buffer. *)
Theorem features_in_range (uint8 freqData : Uint8Array) :
  uint8 <> [] ->
  (forall RD : Rounding,
      array_length_ok uint8 -> exact_sum freqData ->
      in_range (computeRMS uint8) 0 100
      /\ in_range (computeHighFreqAvg freqData) 0 255)
  /\ (in_range (computeRMS (RD := exact_arithmetic) uint8) 0 100
      /\ in_range (computeHighFreqAvg (RD := exact_arithmetic) freqData)
           0 255).
Proof.
  intros Hne; split.
  - unfold array_length_ok, max_length, exact_sum; intros RD Hlen Hsum.
    apply features_bounds; [exact Hne | | ]; apply exact_upto_small; lia.
  - apply features_bounds; [exact Hne | | ];
      apply exact_upto_exact_arithmetic.
Qed.

Lemma Int_part_unit (r : R) : 0 <= r < 1 -> Int_part r = 0%Z.
Proof. intros Hr; symmetry; apply Int_part_spec; lra. Qed.

Lemma extract_total_deterministic_witness :
  well_formed hiss
  /\ (exists e t : R,
         computeRMS (RD := exact_arithmetic) (td hiss) = Fin e
         /\ computeHighFreqAvg (RD := exact_arithmetic) (fd hiss) = Fin t
         /\ extract (RD := exact_arithmetic) hiss
            = {| energy := Fin e; tilt := Fin t |}).
Proof.
  assert (Hwf : well_formed hiss).
  { unfold well_formed, array_length_ok, max_length; cbn.
    repeat split; try discriminate; lia. }
  split; [exact Hwf | ].
  exact (proj1 (extract_total_deterministic (RD := exact_arithmetic)
                  hiss Hwf)).
Defined.

Lemma computeHighFreqAvg_degenerate_witness :
  (band_end (RD := exact_arithmetic) (length [x2a])
   <= band_start (RD := exact_arithmetic) (length [x2a]))%Z
  /\ computeHighFreqAvg (RD := exact_arithmetic) [x2a] = Fin 0.
Proof.
  assert (H : (band_end (RD := exact_arithmetic) (length [x2a])
               <= band_start (RD := exact_arithmetic) (length [x2a]))%Z).
  { unfold band_end, band_start, JS.floor; cbn.
    rewrite !Int_part_unit by lra; lia. }
  split; [exact H | ].
  exact (computeHighFreqAvg_degenerate (RD := exact_arithmetic) [x2a] H).
Defined.

Lemma features_in_range_witness :
  [x00; x80; xff] <> []
  /\ array_length_ok [x00; x80; xff]
  /\ exact_sum [x00; x10; x20; x30; x40; x50; x60; x70; x80; x90]
  /\ in_range (computeRMS (RD := exact_arithmetic) [x00; x80; xff]) 0 100
  /\ in_range
       (computeHighFreqAvg (RD := exact_arithmetic)
          [x00; x10; x20; x30; x40; x50; x60; x70; x80; x90]) 0 255.
Proof.
  assert (H1 : [x00; x80; xff] <> []) by discriminate.
  assert (H2 : array_length_ok [x00; x80; xff])
    by (unfold array_length_ok, max_length; cbn; lia).
  assert (H3 : exact_sum [x00; x10; x20; x30; x40; x50; x60; x70; x80; x90])
    by (unfold exact_sum; cbn; lia).
  repeat (split; [assumption | ]).
  exact (proj1 (features_in_range [x00; x80; xff]
                  [x00; x10; x20; x30; x40; x50; x60; x70; x80; x90] H1)
           exact_arithmetic H2 H3).
Defined.

(** ** Calibration *)

Section CalibrationFacts.
Context {RD : Rounding}.
Local Open Scope num_scope.

(** A calibration that completes has set the two baselines from the
    features of the frames it sampled, at least one, and has left the
    candle alone. *)
Lemma step_completed (t0 : num) (env : list Sample) :
  forall (rmsBuf hfBuf : list num) (s : Session),
    calibrated s = false ->
    calibrated (step t0 rmsBuf hfBuf env s) = true ->
    baselineRMS (step t0 rmsBuf hfBuf env s)
    = baseline_of (rmsBuf ++ energies (collected t0 env))
    /\ baselineHF (step t0 rmsBuf hfBuf env s)
       = baseline_of (hfBuf ++ tilts (collected t0 env))
    /\ out (step t0 rmsBuf hfBuf env s) = out s
    /\ collected t0 env <> [].
Proof.
  induction env as [ | e env IH]; intros rmsBuf hfBuf s Hs Hdone;
    cbn [step collected] in *.
  - congruence.
  - destruct (clock e - t0 < JS.lit 1200).
    + destruct (IH _ _ s Hs Hdone) as (H1 & H2 & H3 & _).
      rewrite H1, H2, H3.
      unfold energies, tilts; cbn [map]; rewrite <- !app_assoc.
      repeat split; discriminate.
    + unfold energies, tilts; cbn.
      repeat split; discriminate.
Qed.

Lemma calibrate_completed (t0 : num) (env : list Sample) (s : Session) :
  calibrated (calibrate t0 env s) = true ->
  baselineRMS (calibrate t0 env s)
  = baseline_of (energies (collected t0 env))
  /\ baselineHF (calibrate t0 env s)
     = baseline_of (tilts (collected t0 env))
  /\ out (calibrate t0 env s) = out s
  /\ collected t0 env <> [].
Proof.
  unfold calibrate; intros Hdone.
  apply step_completed in Hdone; [exact Hdone | reflexivity].
Qed.

(** [step] reaches its last branch exactly when the host delivers an
    animation frame at which the clock is no longer below
    [t0 + 1200]. *)
Lemma step_completes_iff (t0 : num) (env : list Sample) :
  forall (rmsBuf hfBuf : list num) (s : Session),
    calibrated s = false ->
    (calibrated (step t0 rmsBuf hfBuf env s) = true
     <-> Exists (fun e => (clock e - t0 < JS.lit 1200) = false) env).
Proof.
  induction env as [ | e env IH]; intros rmsBuf hfBuf s Hs; cbn [step].
  - rewrite Hs; split; [discriminate | intros H; inversion H].
  - destruct (clock e - t0 < JS.lit 1200) eqn:E.
    + rewrite IH by exact Hs; split; intros H.
      * apply Exists_cons_tl, H.
      * apply Exists_cons in H as [H | H]; [congruence | exact H].
    + cbn; split; [intros _; apply Exists_cons_hd, E | reflexivity].
Qed.

Lemma calibrate_completes_iff (t0 : num) (env : list Sample) (s : Session) :
  calibrated (calibrate t0 env s) = true
  <-> Exists (fun e => (clock e - t0 < JS.lit 1200) = false) env.
Proof. unfold calibrate; apply step_completes_iff; reflexivity. Qed.

(** The features of well-formed frames are numbers. *)
Lemma energies_numbers (frames : list Frame) :
  Forall well_formed frames -> numbers (energies frames).
Proof.
  unfold numbers, energies; intros H; apply Forall_map.
  eapply Forall_impl; [ | exact H].
  intros fr (Htd & _); cbn beta.
  destruct (computeRMS_finite (td fr) Htd) as (x & E & _).
  rewrite E; cbn; unfold computeRMS in E.
  eapply mul_is_number; exact E.
Qed.

Lemma tilts_numbers (frames : list Frame) :
  Forall well_formed frames -> numbers (tilts frames).
Proof.
  unfold numbers, tilts; intros H; apply Forall_map.
  eapply Forall_impl; [ | exact H].
  intros fr (_ & _ & _ & Hfd); cbn beta.
  destruct (computeHighFreqAvg_bounds (fd fr)) as (y & E & _).
  { apply exact_upto_small; unfold array_length_ok, max_length in Hfd; lia. }
  rewrite E; cbn; unfold computeHighFreqAvg in E.
  destruct (JS.truthy _) in E.
  - eapply div_is_number; exact E.
  - injection E as <-; apply rnd_idem.
Qed.

End CalibrationFacts.

(** ** Evaluation on concrete inputs *)

Lemma rnd_exact {RD : Rounding} (e : R) (k : Z) :
  (Z.abs k <= 2 ^ 53)%Z -> e = IZR k -> rnd e = IZR k.
Proof. intros Hk ->; apply rnd_int, Hk. Qed.

(** Settle the comparisons of closed reals. *)
Ltac cmp_eval :=
  repeat match goal with
    | |- context [Rgtb ?x ?y] =>
        first [rewrite (proj2 (Rgtb_true_iff x y)) by lra
              | rewrite (proj2 (Rgtb_false_iff x y)) by lra]
    | |- context [Reqb ?x ?y] =>
        first [rewrite (proj2 (Reqb_true_iff x y)) by lra
              | rewrite (proj2 (Reqb_false_iff x y)) by lra]
    end.

(** Replace a rounded closed real that is the integer [k] by [k]. *)
Ltac rnd_eval k :=
  match goal with
  | |- context [rnd ?e] =>
      rewrite (rnd_exact e k) by first [simpl; lia | lra]
  end.

Ltac js_eval :=
  cbn [JS.add JS.sub JS.mul JS.div JS.sqrt JS.gt JS.lt JS.le JS.max
       JS.truthy JS.of_nat JS.neg INR negb];
  unfold JS.scale_inf; cmp_eval; cbn [JS.neg JS.sqrt negb].

(** Run [sort] and the median read on a list of closed numbers. *)
Ltac baseline_eval :=
  unfold baseline_of, sort; cbn [fold_left insert];
  repeat (rewrite ?ascending_gt by (apply is_number_int; simpl; lia);
          js_eval; cbn [insert]);
  cbn; cmp_eval; cbn [negb]; exact_lits; try reflexivity.

Section Evaluation.
Context {RD : Rounding}.

(** A buffer at the midpoint 128 is silence ... *)
Lemma computeRMS_silence : computeRMS [x80] = Fin 0.
Proof.
  unfold computeRMS; cbn [fold_left length]; unfold rms_step.
  exact_lits.
  replace (byte_val x80) with 128%Z by reflexivity.
  js_eval; rnd_eval 0%Z; js_eval; repeat rnd_eval 0%Z; js_eval.
  rewrite sqrt_0; rnd_eval 0%Z; js_eval; rnd_eval 0%Z.
  reflexivity.
Qed.

(** ... and the upper end 100 of the range is reached. *)
Lemma computeRMS_loudest : computeRMS [x00] = Fin 100.
Proof.
  unfold computeRMS; cbn [fold_left length]; unfold rms_step.
  exact_lits.
  replace (byte_val x00) with 0%Z by reflexivity.
  js_eval; rnd_eval (-128)%Z; js_eval; rnd_eval (-1)%Z; js_eval.
  repeat rnd_eval 1%Z; js_eval.
  rewrite sqrt_1; rnd_eval 1%Z; js_eval; rnd_eval 100%Z.
  reflexivity.
Qed.

(** The special values: [0 / 0] is [NaN], which is why [computeRMS]
    of an empty buffer is [NaN]; comparisons with [NaN] are false. *)
Lemma special_values :
  (Fin 0 / Fin 0)%num = NaN
  /\ (Fin 1 / Fin 0)%num = PInf
  /\ JS.sqrt NaN = NaN
  /\ (NaN > Fin 0)%num = false
  /\ JS.max NaN (Fin 10) = NaN
  /\ or_zero (Some NaN) = Fin 0
  /\ computeRMS [] = NaN.
Proof.
  unfold computeRMS; cbn [fold_left length or_zero]; exact_lits.
  repeat split; js_eval; reflexivity.
Qed.

Lemma baseline_of_constant : baseline_of [Fin 5; Fin 5; Fin 5] = Fin 5.
Proof. baseline_eval. Qed.

Lemma baseline_of_outlier :
  baseline_of [Fin 1; Fin 1; Fin 1; Fin 1; Fin 100] = Fin 1.
Proof. baseline_eval. Qed.

Lemma baseline_of_outlier_first :
  baseline_of [Fin 100; Fin 1; Fin 1; Fin 1; Fin 1] = Fin 1.
Proof. baseline_eval. Qed.

Lemma baseline_of_constant_zero :
  baseline_of [Fin 0; Fin 0; Fin 0] = Fin 0.
Proof. baseline_eval. Qed.

Lemma baseline_of_pair : baseline_of [Fin 0; Fin 100] = Fin 100.
Proof. baseline_eval. Qed.

End Evaluation.

(** Under exact arithmetic a one-bin buffer has an empty band. *)
Lemma one_bin_band_empty :
  (band_end (RD := exact_arithmetic) 1
   <= band_start (RD := exact_arithmetic) 1)%Z.
Proof.
  unfold band_end, band_start, JS.floor; cbn.
  rewrite !Int_part_unit by lra; lia.
Qed.

Lemma one_bin_tilt (b : byte) :
  computeHighFreqAvg (RD := exact_arithmetic) [b] = Fin 0.
Proof. apply computeHighFreqAvg_empty_band, one_bin_band_empty. Qed.

(** ** The properties of calibration *)

Lemma ascending_nth (l : list num) :
  ascending_order l ->
  forall (i j : nat) (a b : num),
    (i < j)%nat -> nth_error l i = Some a -> nth_error l j = Some b ->
    JS.le a b = true.
Proof.
  intros Hs; apply Sorted_StronglySorted in Hs; [ | exact le_trans].
  induction Hs as [ | x l Hs IH Hx]; intros i j a b Hij Ha Hb.
  - destruct i; discriminate.
  - destruct j as [ | j]; [lia | ].
    cbn in Hb; destruct i as [ | i]; cbn in Ha.
    + injection Ha as <-.
      rewrite Forall_forall in Hx; apply Hx.
      eapply nth_error_In; exact Hb.
    + apply (IH i j); [lia | assumption | assumption].
Qed.

Section CalibrationProperties.
Context {RD : Rounding}.

(** A completed calibration of well-formed frames sets each baseline
    to the element at index [floor(n/2)] of the ascending arrangement
    of its [n] samples. *)
Lemma calibrate_median (t0 : num) (env : list Sample) (s : Session)
  (sE sT : list num) :
  calibrated (calibrate t0 env s) = true ->
  Forall well_formed (collected t0 env) ->
  Permutation (energies (collected t0 env)) sE -> ascending_order sE ->
  Permutation (tilts (collected t0 env)) sT -> ascending_order sT ->
  nth_error sE (length (collected t0 env) / 2)
  = Some (baselineRMS (calibrate t0 env s))
  /\ nth_error sT (length (collected t0 env) / 2)
     = Some (baselineHF (calibrate t0 env s)).
Proof.
  intros Hdone Hwf HPE HsE HPT HsT.
  destruct (calibrate_completed t0 env s Hdone) as (-> & -> & _ & Hne).
  split.
  - replace (length (collected t0 env))
      with (length (energies (collected t0 env)))
      by (unfold energies; apply length_map).
    apply baseline_of_median; try assumption.
    + unfold energies; intros E; apply map_eq_nil in E; contradiction.
    + apply energies_numbers, Hwf.
  - replace (length (collected t0 env))
      with (length (tilts (collected t0 env)))
      by (unfold tilts; apply length_map).
    apply baseline_of_median; try assumption.
    + unfold tilts; intros E; apply map_eq_nil in E; contradiction.
    + apply tilts_numbers, Hwf.
Qed.

(** C2. A calibration run completes as soon as an animation frame
    finds the clock at or past [t0 + 1200].  In every completed run
    over well-formed frames, each baseline (energy and tilt
    independently) is the element at index [floor(n/2)] of its sample
    sequence sorted ascending, [n] being the number of samples
    collected; an empty sequence gives 0; the energies [5,5,5] give 5
    and [1,1,1,1,100] give 1. *)
Theorem calibration_baseline_is_median (t0 : num) (env : list Sample)
  (s : Session) (sE sT : list num) :
  (calibrated (calibrate t0 env s) = true
   <-> Exists (fun e => (clock e - t0 < JS.lit 1200)%num = false) env)
  /\ (calibrated (calibrate t0 env s) = true ->
   Forall well_formed (collected t0 env) ->
   Permutation (energies (collected t0 env)) sE -> ascending_order sE ->
   Permutation (tilts (collected t0 env)) sT -> ascending_order sT ->
   nth_error sE (length (collected t0 env) / 2)
   = Some (baselineRMS (calibrate t0 env s))
   /\ nth_error sT (length (collected t0 env) / 2)
      = Some (baselineHF (calibrate t0 env s)))
  /\ baseline_of [] = Fin 0
  /\ baseline_of [Fin 5; Fin 5; Fin 5] = Fin 5
  /\ baseline_of [Fin 1; Fin 1; Fin 1; Fin 1; Fin 100] = Fin 1.
Proof.
  split; [apply calibrate_completes_iff | ].
  split; [apply calibrate_median | ].
  split; [apply baseline_of_empty | ].
  split; [apply baseline_of_constant | apply baseline_of_outlier].
Qed.

(** C3, as the code has it. For an even number [n >= 2] of samples the
    baseline is the upper median: the element at position [n/2] of the
    sorted sequence, which is at least the element at position
    [n/2 - 1]. *)
Theorem calibration_even_upper_median (t0 : num) (env : list Sample)
  (s : Session) (sE sT : list num) :
  calibrated (calibrate t0 env s) = true ->
  Forall well_formed (collected t0 env) ->
  Nat.even (length (collected t0 env)) = true ->
  (2 <= length (collected t0 env))%nat ->
  Permutation (energies (collected t0 env)) sE -> ascending_order sE ->
  Permutation (tilts (collected t0 env)) sT -> ascending_order sT ->
  (nth_error sE (length (collected t0 env) / 2)
   = Some (baselineRMS (calibrate t0 env s))
   /\ exists lower : num,
       nth_error sE (length (collected t0 env) / 2 - 1) = Some lower
       /\ JS.le lower (baselineRMS (calibrate t0 env s)) = true)
  /\ (nth_error sT (length (collected t0 env) / 2)
      = Some (baselineHF (calibrate t0 env s))
      /\ exists lower : num,
          nth_error sT (length (collected t0 env) / 2 - 1) = Some lower
          /\ JS.le lower (baselineHF (calibrate t0 env s)) = true).
Proof.
  intros Hdone Hwf _ Hn HPE HsE HPT HsT.
  destruct (calibrate_median t0 env s sE sT Hdone Hwf HPE HsE HPT HsT)
    as (HE & HT).
  set (n := length (collected t0 env)) in *.
  assert (Hhalf : (1 <= n / 2)%nat)
    by (apply (Nat.Div0.div_le_mono 2 n 2) in Hn; exact Hn).
  assert (Hlower : forall l : list num,
             length l = n ->
             exists lower, nth_error l (n / 2 - 1) = Some lower).
  { intros l Hl; destruct (nth_error l (n / 2 - 1)) as [v | ] eqn:E.
    - exists v; reflexivity.
    - apply nth_error_None in E.
      assert (n / 2 <= n)%nat by (apply Nat.Div0.div_le_upper_bound; lia).
      lia. }
  split; (split; [assumption | ]).
  - destruct (Hlower sE) as (lower & Hl).
    { rewrite <- (Permutation_length HPE); unfold energies; apply length_map. }
    exists lower; split; [exact Hl | ].
    apply (ascending_nth sE HsE (n / 2 - 1) (n / 2));
      [lia | exact Hl | exact HE].
  - destruct (Hlower sT) as (lower & Hl).
    { rewrite <- (Permutation_length HPT); unfold tilts; apply length_map. }
    exists lower; split; [exact Hl | ].
    apply (ascending_nth sT HsT (n / 2 - 1) (n / 2));
      [lia | exact Hl | exact HT].
Qed.

End CalibrationProperties.

(** ** The properties of the classifier *)

Lemma gt_mono (a b c : num) :
  JS.le a b = true -> JS.gt a c = true -> JS.gt b c = true.
Proof.
  destruct a, b, c; cbn; try easy.
  rewrite negb_true_iff, Rgtb_false_iff, !Rgtb_true_iff; lra.
Qed.

(** [Math.max] and [>] on finite numbers are [Rmax] and [>] on the
    reals. *)
Lemma max_finite (x y : R) : JS.max (Fin x) (Fin y) = Fin (Rmax x y).
Proof.
  cbn; rcases; f_equal.
  - rewrite Rmax_left; [reflexivity | lra].
  - rewrite Rmax_right; [reflexivity | lra].
Qed.

Section ClassifierProperties.
Context {RD : Rounding}.
Local Open Scope num_scope.

(** C1. The classifier returns [true] exactly when
    [tilt > baseline.tilt + 18], or [tilt > max(baseline.tilt + 6, 14)]
    and ([energy > max(baseline.energy + 5, 10)] or
    [energy > baseline.energy + 12]).  On finite numbers the rule reads
    the same over the reals, each sum rounded.  With the baseline
    [{energy: 0, tilt: 0}], the features [{energy: 0, tilt: 19}] give
    [true] and [{energy: 0, tilt: 18}] give [false]. *)
Theorem classify_rule :
  (forall f b : FeaturePair,
      classify f b = true <->
      (tilt f > tilt b + JS.lit 18) = true
      \/ ((tilt f > JS.max (tilt b + JS.lit 6) (JS.lit 14)) = true
          /\ ((energy f > JS.max (energy b + JS.lit 5) (JS.lit 10)) = true
              \/ (energy f > energy b + JS.lit 12) = true)))
  /\ (forall e t be bt : R,
         classify {| energy := Fin e; tilt := Fin t |}
                  {| energy := Fin be; tilt := Fin bt |} = true <->
         (t > rnd (bt + 18)
          \/ (t > Rmax (rnd (bt + 6)) 14
              /\ (e > Rmax (rnd (be + 5)) 10 \/ e > rnd (be + 12))))%R)
  /\ classify {| energy := Fin 0; tilt := Fin 19 |}
              {| energy := Fin 0; tilt := Fin 0 |} = true
  /\ classify {| energy := Fin 0; tilt := Fin 18 |}
              {| energy := Fin 0; tilt := Fin 0 |} = false.
Proof.
  assert (Hrule : forall f b : FeaturePair,
             classify f b = true <->
             (tilt f > tilt b + JS.lit 18) = true
             \/ ((tilt f > JS.max (tilt b + JS.lit 6) (JS.lit 14)) = true
                 /\ ((energy f > JS.max (energy b + JS.lit 5) (JS.lit 10))
                     = true
                     \/ (energy f > energy b + JS.lit 12) = true))).
  { intros f b; unfold classify, blowing; cbv zeta.
    rewrite orb_true_iff, andb_true_iff, orb_true_iff; reflexivity. }
  split; [exact Hrule | split; [ | split]].
  - intros e t be bt; rewrite Hrule; cbn [energy tilt].
    exact_lits; cbn [JS.add]; rewrite !max_finite; cbn [JS.gt].
    rewrite !Rgtb_true_iff; reflexivity.
  - unfold classify, blowing; cbn [energy tilt]; exact_lits.
    js_eval; repeat rnd_eval 18%Z; cmp_eval; reflexivity.
  - unfold classify, blowing; cbn [energy tilt]; exact_lits.
    js_eval; rnd_eval 5%Z; rnd_eval 6%Z; rnd_eval 18%Z; rnd_eval 12%Z.
    cmp_eval; reflexivity.
Qed.

(** C6. With the energy and the baseline fixed the classifier is
    monotone in the tilt: if it fires at [tilt1] and [tilt1 <= tilt2],
    it fires at [tilt2]. *)
Theorem classify_monotone_in_tilt (e tilt1 tilt2 : num) (b : FeaturePair) :
  (tilt1 <= tilt2) = true ->
  classify {| energy := e; tilt := tilt1 |} b = true ->
  classify {| energy := e; tilt := tilt2 |} b = true.
Proof.
  intros Hle; unfold classify, blowing; cbv zeta; cbn [energy tilt].
  rewrite !orb_true_iff, !andb_true_iff.
  intros [H | [H1 H2]].
  - left; eapply gt_mono; eassumption.
  - right; split; [eapply gt_mono; eassumption | exact H2].
Qed.

(** The combined trigger at the fixtures of the design document:
    with the baseline [{energy: 0, tilt: 0}], tilt 15 and energy 11
    fire, tilt 15 and energy 9 do not. *)
Lemma combined_trigger_examples :
  classify {| energy := Fin 11; tilt := Fin 15 |}
           {| energy := Fin 0; tilt := Fin 0 |} = true
  /\ classify {| energy := Fin 9; tilt := Fin 15 |}
              {| energy := Fin 0; tilt := Fin 0 |} = false.
Proof.
  split; unfold classify, blowing; cbn [energy tilt]; exact_lits;
    js_eval; rnd_eval 5%Z; rnd_eval 6%Z; rnd_eval 18%Z; rnd_eval 12%Z;
    js_eval; reflexivity.
Qed.

End ClassifierProperties.

Lemma classify_monotone_in_tilt_witness :
  (Fin 19 <= Fin 20)%num = true
  /\ classify (RD := exact_arithmetic)
       {| energy := Fin 0; tilt := Fin 19 |}
       {| energy := Fin 0; tilt := Fin 0 |} = true
  /\ classify (RD := exact_arithmetic)
       {| energy := Fin 0; tilt := Fin 20 |}
       {| energy := Fin 0; tilt := Fin 0 |} = true.
Proof.
  assert (H1 : (Fin 19 <= Fin 20)%num = true) by (js_eval; reflexivity).
  assert (H2 : classify (RD := exact_arithmetic)
                 {| energy := Fin 0; tilt := Fin 19 |}
                 {| energy := Fin 0; tilt := Fin 0 |} = true).
  { unfold classify, blowing; cbn [energy tilt]; exact_lits.
    js_eval; repeat rnd_eval 18%Z; cmp_eval; reflexivity. }
  split; [exact H1 | split; [exact H2 | ]].
  exact (classify_monotone_in_tilt (RD := exact_arithmetic)
           (Fin 0) (Fin 19) (Fin 20) {| energy := Fin 0; tilt := Fin 0 |}
           H1 H2).
Defined.

(** ** The properties of the detection loop *)

Section LoopProperties.
Context {RD : Rounding}.

(** What one [tick] does, by cases on its guard. *)
Lemma tick_cases (fr : Frame) (s : Session) :
  (out s = false /\ calibrated s = true
   /\ ((result (isBlowing fr s) = true
        /\ tick fr s
           = (tt,
              {| baselineRMS := baselineRMS s; baselineHF := baselineHF s;
                 calibrated := calibrated s; out := true |},
              [CallIsBlowing s; AddOut]))
       \/ (result (isBlowing fr s) = false
           /\ tick fr s = (tt, s, [CallIsBlowing s]))))
  \/ ((out s = true \/ calibrated s = false) /\ tick fr s = (tt, s, [])).
Proof.
  unfold tick, bind, classList_contains_out, read_calibrated, isBlowing,
    classList_add_out, ret, result; cbn [fst snd].
  destruct (out s) eqn:Eo; cbn [negb].
  - right; split; [left | ]; reflexivity.
  - destruct (calibrated s) eqn:Ec.
    + left; split; [reflexivity | split; [reflexivity | ]].
      destruct (blowing _ _ _ _); [left | right]; split;
        cbn; rewrite ?Ec; reflexivity.
    + right; split; [right | ]; reflexivity.
Qed.

(** Once the candle is out, a tick is a no-op. *)
Lemma tick_out (fr : Frame) (s : Session) :
  out s = true -> tick fr s = (tt, s, []).
Proof.
  intros Ho; destruct (tick_cases fr s) as [(Hf & _) | (_ & E)];
    [congruence | exact E].
Qed.

Lemma loopDetect_cons (fr : Frame) (rest : list Frame) (s : Session) :
  loopDetect (fr :: rest) s
  = (tt, final (loopDetect rest (final (tick fr s))),
     events (tick fr s) ++ events (loopDetect rest (final (tick fr s)))).
Proof.
  cbn [loopDetect]; unfold bind, final, events.
  destruct (tick fr s) as ((u & s1) & l1); cbn [fst snd].
  destruct (loopDetect rest s1) as ((u2 & s2) & l2); destruct u2; reflexivity.
Qed.

Lemma loopDetect_final (fr : Frame) (rest : list Frame) (s : Session) :
  final (loopDetect (fr :: rest) s)
  = final (loopDetect rest (final (tick fr s))).
Proof. rewrite loopDetect_cons; reflexivity. Qed.

Lemma loopDetect_events (fr : Frame) (rest : list Frame) (s : Session) :
  events (loopDetect (fr :: rest) s)
  = events (tick fr s) ++ events (loopDetect rest (final (tick fr s))).
Proof. rewrite loopDetect_cons; reflexivity. Qed.

Lemma loopDetect_out (frames : list Frame) (s : Session) :
  out s = true -> loopDetect frames s = (tt, s, []).
Proof.
  induction frames as [ | fr rest IH]; intros Ho; [reflexivity | ].
  rewrite loopDetect_cons, (tick_out fr s Ho); unfold final, events.
  cbn [fst snd]; rewrite (IH Ho); reflexivity.
Qed.

Lemma fired_app (l1 l2 : list Event) :
  fired (l1 ++ l2) = (fired l1 + fired l2)%nat.
Proof. unfold fired; rewrite filter_app, length_app; reflexivity. Qed.

(** A tick either fires, taking the candle from not out to out, or
    leaves the session as it is. *)
Lemma tick_fires_or_skips (fr : Frame) (s : Session) :
  (fired (events (tick fr s)) = 1%nat
   /\ out s = false /\ out (final (tick fr s)) = true)
  \/ (fired (events (tick fr s)) = 0%nat /\ final (tick fr s) = s).
Proof.
  destruct (tick_cases fr s)
    as [(Ho & Hc & [(_ & E) | (_ & E)]) | (_ & E)]; rewrite E.
  - left; repeat split; [exact Ho].
  - right; split; reflexivity.
  - right; split; reflexivity.
Qed.

(** C4. Over every sequence of ticks [classList.add("out")] runs at
    most once; when it runs, the candle was not out before and is out
    after; a tick of the calibrated session whose classification is
    [true] does run it; and from a state in which the candle is out
    every tick, and so every further run of the loop, changes nothing
    and logs nothing. *)
Theorem trigger_fires_at_most_once :
  (forall (frames : list Frame) (s : Session),
      (fired (events (loopDetect frames s)) <= 1)%nat
      /\ (fired (events (loopDetect frames s)) = 1%nat ->
          out s = false /\ out (final (loopDetect frames s)) = true))
  /\ (forall (fr : Frame) (s : Session),
         calibrated s = true -> out s = false ->
         result (isBlowing fr s) = true ->
         fired (events (tick fr s)) = 1%nat
         /\ out (final (tick fr s)) = true)
  /\ (forall (fr : Frame) (s : Session),
         out s = true -> tick fr s = (tt, s, []))
  /\ (forall (frames : list Frame) (s : Session),
         out s = true -> loopDetect frames s = (tt, s, [])).
Proof.
  split; [ | split; [ | split; [exact tick_out | exact loopDetect_out]]];
    cycle 1.
  { intros fr s Hc Ho Hb.
    destruct (tick_cases fr s)
      as [(_ & _ & [(_ & E) | (Hb' & _)]) | ([Ho' | Hc'] & _)];
      [rewrite E; split; reflexivity | congruence | congruence | congruence]. }
  induction frames as [ | fr rest IH]; intros s.
  - cbn; split; [lia | discriminate].
  - rewrite loopDetect_events, loopDetect_final, fired_app.
    destruct (tick_fires_or_skips fr s) as [(-> & Ho & Ho') | (-> & ->)].
    + rewrite (loopDetect_out rest _ Ho').
      cbn; split; [lia | intros _; split; [exact Ho | exact Ho']].
    + exact (IH s).
Qed.

(** C5. [isBlowing] is entered only in a session state with
    [calibrated = true] and the candle not out: a tick whose state
    meets both enters it once, any other tick skips it and does
    nothing; and so every call a run of the loop logs was made in such
    a state. *)
Theorem classifier_called_only_when_armed :
  (forall (fr : Frame) (s : Session),
      (calibrated s = true /\ out s = false
       /\ filter (fun e => negb (is_AddOut e)) (events (tick fr s))
          = [CallIsBlowing s])
      \/ ((calibrated s = false \/ out s = true)
          /\ tick fr s = (tt, s, [])))
  /\ (forall (frames : list Frame) (s0 s : Session),
         In (CallIsBlowing s) (events (loopDetect frames s0)) ->
         calibrated s = true /\ out s = false).
Proof.
  split.
  - intros fr s.
    destruct (tick_cases fr s)
      as [(Ho & Hc & [(_ & E) | (_ & E)]) | (Hg & E)]; rewrite E.
    + left; repeat split; assumption.
    + left; repeat split; assumption.
    + right; split; [tauto | reflexivity].
  - induction frames as [ | fr rest IH]; intros s0 s Hin.
    + destruct Hin.
    + rewrite loopDetect_events in Hin.
      apply in_app_or in Hin as [Hin | Hin].
      * destruct (tick_cases fr s0)
          as [(Ho & Hc & [(_ & E) | (_ & E)]) | (_ & E)];
          rewrite E in Hin; unfold events in Hin; cbn [snd] in Hin.
        -- destruct Hin as [[= <-] | [[=] | []]]; split; assumption.
        -- destruct Hin as [[= <-] | []]; split; assumption.
        -- destruct Hin.
      * eapply IH; exact Hin.
Qed.

(** No tick, no call of [isBlowing] and no run of the detection loop
    writes [baselineRMS], [baselineHF] or [calibrated]: [isBlowing]
    leaves the whole session as it is, and the loop changes at most the
    class of the candle. *)
Lemma detection_keeps_baseline :
  (forall (fr : Frame) (s : Session), final (isBlowing fr s) = s)
  /\ (forall (fr : Frame) (s : Session),
         baselineRMS (final (tick fr s)) = baselineRMS s
         /\ baselineHF (final (tick fr s)) = baselineHF s
         /\ calibrated (final (tick fr s)) = calibrated s)
  /\ (forall (frames : list Frame) (s : Session),
         baselineRMS (final (loopDetect frames s)) = baselineRMS s
         /\ baselineHF (final (loopDetect frames s)) = baselineHF s
         /\ calibrated (final (loopDetect frames s)) = calibrated s).
Proof.
  assert (Htick : forall (fr : Frame) (s : Session),
             baselineRMS (final (tick fr s)) = baselineRMS s
             /\ baselineHF (final (tick fr s)) = baselineHF s
             /\ calibrated (final (tick fr s)) = calibrated s).
  { intros fr s.
    destruct (tick_cases fr s)
      as [(_ & _ & [(_ & E) | (_ & E)]) | (_ & E)]; rewrite E;
      repeat split; reflexivity. }
  split; [reflexivity | split; [exact Htick | ]].
  induction frames as [ | fr rest IH]; intros s.
  - repeat split; reflexivity.
  - rewrite loopDetect_final.
    destruct (IH (final (tick fr s))) as (H1 & H2 & H3).
    destruct (Htick fr s) as (T1 & T2 & T3).
    rewrite H1, H2, H3, T1, T2, T3; repeat split; reflexivity.
Qed.

End LoopProperties.

(** ** The properties at the sample inputs *)

Section ClockFacts.
Context {RD : Rounding}.
Local Open Scope num_scope.

Lemma clock_running (c : Z) :
  (0 <= c < 1200)%Z -> (Fin (IZR c) - Fin 0 < JS.lit 1200) = true.
Proof.
  intros Hc; exact_lits; cbn [JS.sub JS.lt JS.gt].
  rewrite (rnd_exact _ c) by first [lia | lra].
  apply Rgtb_true_iff, Rlt_gt, IZR_lt; lia.
Qed.

Lemma clock_expired (c : Z) :
  (1200 <= c <= 2 ^ 53)%Z -> (Fin (IZR c) - Fin 0 < JS.lit 1200) = false.
Proof.
  intros Hc; exact_lits; cbn [JS.sub JS.lt JS.gt].
  rewrite (rnd_exact _ c) by first [lia | lra].
  apply Rgtb_false_iff, IZR_le; lia.
Qed.

End ClockFacts.

(** Step through a calibration run whose clock values are literals. *)
Ltac run_eval :=
  cbn [step collected frame clock odd_run even_run];
  repeat (first [rewrite clock_running by lia
                | rewrite clock_expired by lia];
          cbn [step collected frame clock]).

Lemma odd_run_completes :
  calibrated (calibrate (RD := exact_arithmetic) (Fin 0) odd_run
                (initial false)) = true.
Proof. unfold calibrate; run_eval; reflexivity. Qed.

Lemma odd_run_collected :
  collected (RD := exact_arithmetic) (Fin 0) odd_run = [quiet; loud; quiet].
Proof. run_eval; reflexivity. Qed.

Lemma even_run_completes :
  calibrated (calibrate (RD := exact_arithmetic) (Fin 0) even_run
                (initial false)) = true.
Proof. unfold calibrate; run_eval; reflexivity. Qed.

Lemma even_run_collected :
  collected (RD := exact_arithmetic) (Fin 0) even_run = [quiet; loud].
Proof. run_eval; reflexivity. Qed.

Lemma sample_frames_well_formed :
  well_formed quiet /\ well_formed loud /\ well_formed hiss.
Proof.
  unfold well_formed, array_length_ok, max_length; cbn.
  repeat split; try discriminate; lia.
Qed.

Lemma sample_energies :
  energies (RD := exact_arithmetic) [quiet; loud; quiet]
  = [Fin 0; Fin 100; Fin 0]
  /\ energies (RD := exact_arithmetic) [quiet; loud] = [Fin 0; Fin 100].
Proof.
  unfold energies; cbn [map td quiet loud].
  rewrite computeRMS_silence, computeRMS_loudest; split; reflexivity.
Qed.

Lemma sample_tilts :
  tilts (RD := exact_arithmetic) [quiet; loud; quiet]
  = [Fin 0; Fin 0; Fin 0]
  /\ tilts (RD := exact_arithmetic) [quiet; loud] = [Fin 0; Fin 0].
Proof.
  unfold tilts; cbn [map fd quiet loud].
  rewrite one_bin_tilt; split; reflexivity.
Qed.

Lemma ascending_0_0_100 : ascending_order [Fin 0; Fin 0; Fin 100].
Proof. repeat constructor; js_eval; reflexivity. Qed.

Lemma ascending_0_100 : ascending_order [Fin 0; Fin 100].
Proof. repeat constructor; js_eval; reflexivity. Qed.

Lemma ascending_zeros (n : nat) : ascending_order (repeat (Fin 0) n).
Proof.
  induction n as [ | n IH]; cbn [repeat]; constructor; [exact IH | ].
  destruct n; cbn [repeat]; constructor; js_eval; reflexivity.
Qed.

(** The run of three samples with energies 0, 100, 0 and tilts 0, 0, 0
    calibrates both baselines to 0. *)
Lemma calibration_baseline_is_median_witness :
  calibrated (calibrate (RD := exact_arithmetic) (Fin 0) odd_run
                (initial false)) = true
  /\ Forall well_formed (collected (RD := exact_arithmetic) (Fin 0) odd_run)
  /\ Permutation
       (energies (RD := exact_arithmetic)
          (collected (RD := exact_arithmetic) (Fin 0) odd_run))
       [Fin 0; Fin 0; Fin 100]
  /\ ascending_order [Fin 0; Fin 0; Fin 100]
  /\ Permutation
       (tilts (RD := exact_arithmetic)
          (collected (RD := exact_arithmetic) (Fin 0) odd_run))
       [Fin 0; Fin 0; Fin 0]
  /\ ascending_order [Fin 0; Fin 0; Fin 0]
  /\ nth_error [Fin 0; Fin 0; Fin 100]
       (length (collected (RD := exact_arithmetic) (Fin 0) odd_run) / 2)
     = Some (baselineRMS (calibrate (RD := exact_arithmetic) (Fin 0) odd_run
                            (initial false)))
  /\ nth_error [Fin 0; Fin 0; Fin 0]
       (length (collected (RD := exact_arithmetic) (Fin 0) odd_run) / 2)
     = Some (baselineHF (calibrate (RD := exact_arithmetic) (Fin 0) odd_run
                           (initial false))).
Proof.
  pose proof sample_frames_well_formed as (Hq & Hl & _).
  assert (H1 := odd_run_completes).
  assert (H2 : Forall well_formed
                 (collected (RD := exact_arithmetic) (Fin 0) odd_run))
    by (rewrite odd_run_collected;
        repeat (apply Forall_cons; [assumption | ]); apply Forall_nil).
  assert (H3 : Permutation
                 (energies (RD := exact_arithmetic)
                    (collected (RD := exact_arithmetic) (Fin 0) odd_run))
                 [Fin 0; Fin 0; Fin 100]).
  { rewrite odd_run_collected, (proj1 sample_energies).
    apply perm_skip, perm_swap. }
  assert (H4 := ascending_0_0_100).
  assert (H5 : Permutation
                 (tilts (RD := exact_arithmetic)
                    (collected (RD := exact_arithmetic) (Fin 0) odd_run))
                 [Fin 0; Fin 0; Fin 0]).
  { rewrite odd_run_collected, (proj1 sample_tilts).
    apply Permutation_refl. }
  assert (H6 := ascending_zeros 3).
  repeat (split; [assumption | ]).
  exact (proj1 (proj2 (calibration_baseline_is_median
                         (RD := exact_arithmetic)
                         (Fin 0) odd_run (initial false)
                         [Fin 0; Fin 0; Fin 100] [Fin 0; Fin 0; Fin 0]))
           H1 H2 H3 H4 H5 H6).
Defined.

(** The run of two samples with energies 0 and 100: the baseline is
    100, the upper of the two, against C3 as stated. *)
Lemma even_run_baseline :
  baselineRMS (calibrate (RD := exact_arithmetic) (Fin 0) even_run
                 (initial false)) = Fin 100.
Proof.
  destruct (calibrate_completed (RD := exact_arithmetic) (Fin 0) even_run
              (initial false) even_run_completes) as (-> & _).
  rewrite even_run_collected, (proj2 sample_energies).
  apply baseline_of_pair.
Qed.

Lemma lower_median_counterexample :
  calibrated (calibrate (RD := exact_arithmetic) (Fin 0) even_run
                (initial false)) = true
  /\ Forall well_formed (collected (RD := exact_arithmetic) (Fin 0) even_run)
  /\ Nat.even
       (length (collected (RD := exact_arithmetic) (Fin 0) even_run)) = true
  /\ (2 <= length (collected (RD := exact_arithmetic) (Fin 0) even_run))%nat
  /\ Permutation
       (energies (RD := exact_arithmetic)
          (collected (RD := exact_arithmetic) (Fin 0) even_run))
       [Fin 0; Fin 100]
  /\ ascending_order [Fin 0; Fin 100]
  /\ nth_error [Fin 0; Fin 100]
       (length (collected (RD := exact_arithmetic) (Fin 0) even_run) / 2 - 1)
     <> Some (baselineRMS (calibrate (RD := exact_arithmetic) (Fin 0)
                             even_run (initial false))).
Proof.
  pose proof sample_frames_well_formed as (Hq & Hl & _).
  split; [exact even_run_completes | ].
  rewrite even_run_baseline, even_run_collected, (proj2 sample_energies).
  split; [repeat (apply Forall_cons; [assumption | ]); apply Forall_nil | ].
  split; [reflexivity | ].
  split; [cbn; lia | ].
  split; [apply Permutation_refl | ].
  split; [exact ascending_0_100 | ].
  cbn; intros [= H]; lra.
Qed.

Lemma calibration_even_upper_median_witness :
  calibrated (calibrate (RD := exact_arithmetic) (Fin 0) even_run
                (initial false)) = true
  /\ Forall well_formed (collected (RD := exact_arithmetic) (Fin 0) even_run)
  /\ Nat.even
       (length (collected (RD := exact_arithmetic) (Fin 0) even_run)) = true
  /\ (2 <= length (collected (RD := exact_arithmetic) (Fin 0) even_run))%nat
  /\ Permutation
       (energies (RD := exact_arithmetic)
          (collected (RD := exact_arithmetic) (Fin 0) even_run))
       [Fin 0; Fin 100]
  /\ ascending_order [Fin 0; Fin 100]
  /\ Permutation
       (tilts (RD := exact_arithmetic)
          (collected (RD := exact_arithmetic) (Fin 0) even_run))
       [Fin 0; Fin 0]
  /\ ascending_order [Fin 0; Fin 0]
  /\ nth_error [Fin 0; Fin 100]
       (length (collected (RD := exact_arithmetic) (Fin 0) even_run) / 2)
     = Some (baselineRMS (calibrate (RD := exact_arithmetic) (Fin 0)
                            even_run (initial false)))
  /\ nth_error [Fin 0; Fin 0]
       (length (collected (RD := exact_arithmetic) (Fin 0) even_run) / 2)
     = Some (baselineHF (calibrate (RD := exact_arithmetic) (Fin 0)
                           even_run (initial false))).
Proof.
  pose proof sample_frames_well_formed as (Hq & Hl & _).
  assert (H1 := even_run_completes).
  assert (H2 : Forall well_formed
                 (collected (RD := exact_arithmetic) (Fin 0) even_run))
    by (rewrite even_run_collected;
        repeat (apply Forall_cons; [assumption | ]); apply Forall_nil).
  assert (H3 : Nat.even
                 (length (collected (RD := exact_arithmetic) (Fin 0) even_run))
               = true)
    by (rewrite even_run_collected; reflexivity).
  assert (H4 : (2 <= length (collected (RD := exact_arithmetic) (Fin 0)
                               even_run))%nat)
    by (rewrite even_run_collected; cbn; lia).
  assert (H5 : Permutation
                 (energies (RD := exact_arithmetic)
                    (collected (RD := exact_arithmetic) (Fin 0) even_run))
                 [Fin 0; Fin 100])
    by (rewrite even_run_collected, (proj2 sample_energies);
        apply Permutation_refl).
  assert (H6 := ascending_0_100).
  assert (H7 : Permutation
                 (tilts (RD := exact_arithmetic)
                    (collected (RD := exact_arithmetic) (Fin 0) even_run))
                 [Fin 0; Fin 0])
    by (rewrite even_run_collected, (proj2 sample_tilts);
        apply Permutation_refl).
  assert (H8 := ascending_zeros 2).
  repeat (split; [assumption | ]).
  destruct (calibration_even_upper_median (RD := exact_arithmetic)
              (Fin 0) even_run (initial false) [Fin 0; Fin 100] [Fin 0; Fin 0]
              H1 H2 H3 H4 H5 H6 H7 H8) as ((HE & _) & (HT & _)).
  split; [exact HE | exact HT].
Defined.

(** From the triggered session a tick, and any run of the loop, is a
    no-op; from the armed session the loop over a quiet and two hiss
    frames fires at most once. *)
Lemma trigger_fires_at_most_once_witness :
  out triggered = true
  /\ tick (RD := exact_arithmetic) hiss triggered = (tt, triggered, [])
  /\ loopDetect (RD := exact_arithmetic) [hiss; quiet] triggered
     = (tt, triggered, [])
  /\ (fired (events (loopDetect (RD := exact_arithmetic)
                       [quiet; hiss; hiss] armed)) <= 1)%nat.
Proof.
  assert (H : out triggered = true) by reflexivity.
  destruct (trigger_fires_at_most_once (RD := exact_arithmetic))
    as (H1 & _ & H2 & H3).
  split; [exact H | ].
  split; [exact (H2 hiss triggered H) | ].
  split; [exact (H3 [hiss; quiet] triggered H) | ].
  exact (proj1 (H1 [quiet; hiss; hiss] armed)).
Defined.

(** In the armed session a tick enters [isBlowing], and the state the
    call is logged with is calibrated and not out. *)
Lemma classifier_called_only_when_armed_witness :
  In (CallIsBlowing armed)
     (events (loopDetect (RD := exact_arithmetic) [quiet] armed))
  /\ calibrated armed = true /\ out armed = false.
Proof.
  assert (H : In (CallIsBlowing armed)
                (events (loopDetect (RD := exact_arithmetic) [quiet] armed))).
  { rewrite loopDetect_events; apply in_or_app; left.
    destruct (tick_cases (RD := exact_arithmetic) quiet armed)
      as [(_ & _ & [(_ & E) | (_ & E)]) | ([Ho | Hc] & _)];
      [rewrite E; left; reflexivity | rewrite E; left; reflexivity
      | discriminate | discriminate]. }
  split; [exact H | ].
  exact (proj2 (classifier_called_only_when_armed (RD := exact_arithmetic))
           [quiet] armed armed H).
Defined.

(** ** A whole session *)

Lemma Int_part_between (r : R) (z : Z) :
  IZR z <= r < IZR z + 1 -> Int_part r = z.
Proof. intros Hr; symmetry; apply Int_part_spec; lra. Qed.

(** Of two bins the band holds the first. *)
Lemma two_bin_band :
  band (band_start (RD := exact_arithmetic) 2)
       (band_end (RD := exact_arithmetic) 2) = [0%Z].
Proof.
  unfold band_start, band_end, JS.floor; cbn [rnd exact_arithmetic INR].
  rewrite (Int_part_between ((1 + 1) * 0.35) 0) by lra.
  rewrite (Int_part_between ((1 + 1) * 0.9) 1) by lra.
  reflexivity.
Qed.

(** Of the 256 bins of the analyser the band holds 89 to 229. *)
Lemma analyser_band :
  band_start (RD := exact_arithmetic) frequencyBinCount = 89%Z
  /\ band_end (RD := exact_arithmetic) frequencyBinCount = 230%Z.
Proof.
  unfold band_start, band_end, JS.floor; cbn [rnd exact_arithmetic].
  rewrite INR_IZR_INZ.
  change (Z.of_nat frequencyBinCount) with 256%Z.
  rewrite (Int_part_between (256 * 0.35) 89) by lra.
  rewrite (Int_part_between (256 * 0.9) 230) by lra.
  split; reflexivity.
Qed.

Lemma hiss_tilt :
  computeHighFreqAvg (RD := exact_arithmetic) (fd hiss) = Fin 255.
Proof.
  unfold computeHighFreqAvg; cbn [hiss fd length]; rewrite two_bin_band.
  cbn [fold_left length get Z.ltb Z.compare Z.to_nat nth_error].
  replace (byte_val xff) with 255%Z by reflexivity.
  exact_lits; js_eval; cbn [rnd exact_arithmetic negb]; f_equal; lra.
Qed.

(** The end-to-end scenario of the design document: a quiet
    calibration window, then a quiet frame, a blow and one more frame.
    The two ticks before the trigger call [isBlowing], the second puts
    the candle out, the third does nothing. *)
Lemma session_scenario :
  startAnalyser (RD := exact_arithmetic) (Fin 0) odd_run
    [quiet; hiss; hiss] (initial false)
  = (tt, triggered, [CallIsBlowing armed; CallIsBlowing armed; AddOut]).
Proof.
  assert (Hcal : calibrate (RD := exact_arithmetic) (Fin 0) odd_run
                   (initial false) = armed).
  { unfold calibrate; run_eval; cbn [app quiet loud td fd initial out].
    rewrite computeRMS_silence, computeRMS_loudest, one_bin_tilt.
    rewrite baseline_of_constant_zero.
    replace (baseline_of (RD := exact_arithmetic) [Fin 0; Fin 100; Fin 0])
      with (Fin 0) by (symmetry; baseline_eval).
    reflexivity. }
  unfold startAnalyser; rewrite Hcal; cbn [calibrated armed].
  assert (Hq : blowing (RD := exact_arithmetic) (computeRMS (td quiet))
                 (computeHighFreqAvg (fd quiet)) (Fin 0) (Fin 0) = false).
  { cbn [quiet td fd]; rewrite computeRMS_silence, one_bin_tilt.
    unfold blowing; exact_lits; js_eval; cbn [rnd exact_arithmetic].
    cmp_eval; reflexivity. }
  assert (Hh : blowing (RD := exact_arithmetic) (computeRMS (td hiss))
                 (computeHighFreqAvg (fd hiss)) (Fin 0) (Fin 0) = true).
  { rewrite hiss_tilt; cbn [hiss td]; rewrite computeRMS_silence.
    unfold blowing; exact_lits; js_eval; cbn [rnd exact_arithmetic].
    cmp_eval; reflexivity. }
  assert (Tq : tick (RD := exact_arithmetic) quiet armed
               = (tt, armed, [CallIsBlowing armed])).
  { unfold tick, bind, classList_contains_out, read_calibrated, isBlowing,
      classList_add_out, ret.
    cbn [out calibrated baselineRMS baselineHF armed negb].
    rewrite Hq; reflexivity. }
  assert (Th : tick (RD := exact_arithmetic) hiss armed
               = (tt, triggered, [CallIsBlowing armed; AddOut])).
  { unfold tick, bind, classList_contains_out, read_calibrated, isBlowing,
      classList_add_out, ret.
    cbn [out calibrated baselineRMS baselineHF armed negb].
    rewrite Hh; reflexivity. }
  rewrite loopDetect_cons, Tq; unfold final at 2 3, events at 1.
  cbn [fst snd].
  rewrite loopDetect_cons, Th; unfold final at 2 3 4 5, events at 2.
  cbn [fst snd].
  rewrite loopDetect_out by reflexivity.
  reflexivity.
Qed.

(** * Further properties *)

(** ** The decision rule *)

Lemma max_bounds (a b c : num) :
  JS.gt c (JS.max a b) = true -> JS.gt c a = true /\ JS.gt c b = true.
Proof.
  destruct a, b, c; cbn; try easy; rcases; cbn; try easy;
    rewrite ?Rgtb_true_iff; intros; split; lra.
Qed.

Lemma gt_max (a b c : num) :
  JS.gt c a = true -> JS.gt c b = true -> JS.gt c (JS.max a b) = true.
Proof.
  destruct a, b, c; cbn; try easy; rcases; cbn; try easy;
    intros; lra.
Qed.

Lemma gt_le_trans (a b c : num) :
  JS.gt c b = true -> JS.le a b = true -> JS.gt c a = true.
Proof.
  destruct a, b, c; cbn; try easy.
  rewrite negb_true_iff, Rgtb_false_iff, !Rgtb_true_iff; lra.
Qed.

Section RuleProperties.
Context {RD : Rounding}.
Local Open Scope num_scope.

(** Adding a larger literal gives a larger sum. *)
Lemma add_lit_mono (a : num) (j k : Z) :
  (Z.abs j <= 2 ^ 53)%Z -> (Z.abs k <= 2 ^ 53)%Z -> (j <= k)%Z ->
  a <> NaN ->
  (a + JS.lit (IZR j) <= a + JS.lit (IZR k)) = true.
Proof.
  intros Hj Hk Hjk Ha; rewrite !lit_int by assumption.
  destruct a; cbn; try easy.
  rewrite negb_true_iff, Rgtb_false_iff.
  apply rnd_mono; apply IZR_le in Hjk; lra.
Qed.

(** X1. With the tilt and the baseline fixed the rule is monotone in the
    energy: a louder frame with the same spectrum fires whenever the
    quieter one does. *)
Theorem blowing_monotone_in_energy (rms1 rms2 hf baselineRMS baselineHF : num) :
  (rms1 <= rms2) = true ->
  blowing rms1 hf baselineRMS baselineHF = true ->
  blowing rms2 hf baselineRMS baselineHF = true.
Proof.
  intros Hle; unfold blowing; cbv zeta.
  rewrite !orb_true_iff, !andb_true_iff, !orb_true_iff.
  intros [H | [H1 [H2 | H2]]]; [left; exact H | right; split .. ];
    try exact H1; [left | right]; eapply gt_mono; eassumption.
Qed.

(** X2. No frame fires unless its tilt exceeds the baseline tilt by more
    than 6: the energy alone never triggers.  In particular a frame
    whose tilt is at most the baseline tilt is never classified as a
    blow, however loud it is. *)
Theorem blowing_needs_hiss (rms hf baselineRMS baselineHF : num) :
  (blowing rms hf baselineRMS baselineHF = true ->
   (hf > baselineHF + JS.lit 6) = true)
  /\ (is_number baselineHF -> (hf <= baselineHF) = true ->
      blowing rms hf baselineRMS baselineHF = false).
Proof.
  assert (Hneed : blowing rms hf baselineRMS baselineHF = true ->
                  (hf > baselineHF + JS.lit 6) = true).
  { unfold blowing; cbv zeta.
    rewrite orb_true_iff, andb_true_iff.
    intros [H | [H _]].
    - destruct (baselineHF) eqn:E; try (subst; cbn in H; destruct hf; easy).
      all: eapply gt_le_trans; [exact H | ];
        apply (add_lit_mono _ 6 18); simpl; try lia; discriminate.
    - apply max_bounds in H; tauto. }
  split; [exact Hneed | ].
  intros Hb Hle; destruct (blowing rms hf baselineRMS baselineHF) eqn:E;
    [ | reflexivity].
  specialize (Hneed eq_refl); exfalso.
  rewrite lit_int in Hneed by (simpl; lia).
  destruct hf, baselineHF; cbn in *; try easy.
  rewrite negb_true_iff, Rgtb_false_iff in Hle.
  rewrite Rgtb_true_iff in Hneed.
  assert ((rnd x0 <= rnd (x0 + 6))%R) by (apply rnd_mono; lra).
  lra.
Qed.

(** X3. For an energy baseline of at least -2, as every calibrated one
    is, the clause [rms > baselineRMS + 12] never decides: the rule is
    [hissStrong || (hf > hfThresh && rms > rmsThresh)]. *)
Theorem blowing_second_clause_redundant (rms hf baselineRMS baselineHF : num) :
  (Fin (-2) <= baselineRMS) = true ->
  blowing rms hf baselineRMS baselineHF
  = ((hf > baselineHF + JS.lit 18)
     || ((hf > JS.max (baselineHF + JS.lit 6) (JS.lit 14))
         && (rms > JS.max (baselineRMS + JS.lit 5) (JS.lit 10)))).
Proof.
  intros Hb; unfold blowing; cbv zeta.
  f_equal; f_equal.
  destruct (rms > baselineRMS + JS.lit 12) eqn:E;
    [ | apply orb_false_r].
  rewrite orb_true_r; symmetry.
  apply gt_max.
  - eapply gt_le_trans; [exact E | ].
    apply (add_lit_mono _ 5 12); simpl; try lia.
    destruct baselineRMS; easy.
  - eapply gt_le_trans; [exact E | ].
    rewrite !lit_int by (simpl; lia).
    destruct baselineRMS; cbn in *; try easy.
    rewrite negb_true_iff, Rgtb_false_iff in *.
    apply (rnd_ge_int _ 10); [simpl; lia | lra].
Qed.

(** X4. [NaN] never triggers by itself: with a [NaN] tilt or tilt baseline
    the rule is false; with a [NaN] energy or energy baseline only the
    strong-hiss clause is left. *)
Theorem blowing_NaN (rms hf baselineRMS baselineHF : num) :
  blowing rms NaN baselineRMS baselineHF = false
  /\ blowing rms hf baselineRMS NaN = false
  /\ blowing NaN hf baselineRMS baselineHF
     = (hf > baselineHF + JS.lit 18)
  /\ blowing rms hf NaN baselineHF = (hf > baselineHF + JS.lit 18).
Proof.
  assert (Hgt : forall a : num, (a > NaN) = false)
    by (intros a; destruct a; reflexivity).
  unfold blowing; cbv zeta.
  split; [reflexivity | split; [ | split]].
  - unfold JS.lit; cbn [JS.add JS.max]; rewrite !Hgt; reflexivity.
  - cbn [JS.gt]; rewrite andb_false_r, orb_false_r; reflexivity.
  - unfold JS.lit; cbn [JS.add JS.max].
    rewrite !Hgt, andb_false_r, orb_false_r; reflexivity.
Qed.

End RuleProperties.

Lemma blowing_monotone_in_energy_witness :
  (Fin 11 <= Fin 12)%num = true
  /\ blowing (RD := exact_arithmetic) (Fin 11) (Fin 15) (Fin 0) (Fin 0) = true
  /\ blowing (RD := exact_arithmetic) (Fin 12) (Fin 15) (Fin 0) (Fin 0) = true.
Proof.
  assert (H1 : (Fin 11 <= Fin 12)%num = true) by (js_eval; reflexivity).
  assert (H2 : blowing (RD := exact_arithmetic)
                 (Fin 11) (Fin 15) (Fin 0) (Fin 0) = true)
    by exact (proj1 (combined_trigger_examples (RD := exact_arithmetic))).
  split; [exact H1 | split; [exact H2 | ]].
  exact (blowing_monotone_in_energy (RD := exact_arithmetic)
           (Fin 11) (Fin 12) (Fin 15) (Fin 0) (Fin 0) H1 H2).
Defined.

(** A frame as loud as can be, with the tilt at the baseline, does not
    fire. *)
Lemma blowing_needs_hiss_witness :
  is_number (RD := exact_arithmetic) (Fin 20)
  /\ (Fin 20 <= Fin 20)%num = true
  /\ blowing (RD := exact_arithmetic) (Fin 100) (Fin 20) (Fin 0) (Fin 20)
     = false.
Proof.
  assert (H1 : is_number (RD := exact_arithmetic) (Fin 20)) by reflexivity.
  assert (H2 : (Fin 20 <= Fin 20)%num = true) by (js_eval; reflexivity).
  split; [exact H1 | split; [exact H2 | ]].
  exact (proj2 (blowing_needs_hiss (RD := exact_arithmetic)
                  (Fin 100) (Fin 20) (Fin 0) (Fin 20)) H1 H2).
Defined.

Lemma blowing_second_clause_redundant_witness :
  (Fin (-2) <= Fin 0)%num = true
  /\ blowing (RD := exact_arithmetic) (Fin 13) (Fin 15) (Fin 0) (Fin 0)
     = (((Fin 15 > Fin 0 + JS.lit 18)
         || ((Fin 15 > JS.max (Fin 0 + JS.lit 6) (JS.lit 14))
             && (Fin 13 > JS.max (Fin 0 + JS.lit 5) (JS.lit 10))))%num).
Proof.
  assert (H : (Fin (-2) <= Fin 0)%num = true) by (js_eval; reflexivity).
  split; [exact H | ].
  exact (blowing_second_clause_redundant (RD := exact_arithmetic)
           (Fin 13) (Fin 15) (Fin 0) (Fin 0) H).
Defined.

(** ** The two features *)

Lemma Int_part_mono (x y : R) : x <= y -> (Int_part x <= Int_part y)%Z.
Proof.
  intros Hxy.
  destruct (base_Int_part x) as [Hx _], (base_Int_part y) as [_ Hy].
  assert (H : IZR (Int_part x) < IZR (Int_part y + 1))
    by (rewrite plus_IZR; lra).
  apply lt_IZR in H; lia.
Qed.

Lemma fold_left_ext_in {A B : Type} (f g : A -> B -> A) (l : list B) :
  (forall a x, In x l -> f a x = g a x) ->
  forall a : A, fold_left f l a = fold_left g l a.
Proof.
  induction l as [ | x l IH]; intros H a; cbn [fold_left]; [reflexivity | ].
  rewrite (H a x) by (left; reflexivity).
  apply IH; intros a' x' Hx'; apply H; right; exact Hx'.
Qed.

Section FeatureProperties.
Context {RD : Rounding}.
Local Open Scope num_scope.

(** X5. The loop of [computeHighFreqAvg] stays inside the buffer: its
    bounds satisfy [0 <= start <= end <= length], and every index it
    visits reads a byte, never [undefined]. *)
Theorem band_inside_buffer (freqData : Uint8Array) :
  array_length_ok freqData ->
  (0 <= band_start (length freqData) <= band_end (length freqData))%Z
  /\ (band_end (length freqData) <= Z.of_nat (length freqData))%Z
  /\ Forall (fun i => exists b : byte, get freqData i = Fin (IZR (byte_val b)))
       (band (band_start (length freqData)) (band_end (length freqData))).
Proof.
  intros Hlen.
  assert (Hend : (band_end (length freqData)
                  <= Z.of_nat (length freqData))%Z).
  { apply band_end_le, exact_upto_small.
    unfold array_length_ok, max_length in Hlen; lia. }
  pose proof (band_start_nonneg (length freqData)) as Hstart.
  split; [split; [exact Hstart | ] | split; [exact Hend | ]].
  - unfold band_start, band_end, JS.floor.
    apply Int_part_mono, rnd_mono.
    assert ((rnd 0.35 <= rnd 0.9)%R) by (apply rnd_mono; lra).
    pose proof (pos_INR (length freqData)); nra.
  - apply Forall_forall; intros i Hi; apply band_range in Hi.
    apply get_in_range; lia.
Qed.

(** X6. The tilt depends on the bins of the band only: two buffers of the
    same length that agree on the band have the same tilt, whatever
    their low and their topmost bins hold. *)
Theorem tilt_depends_on_band_only (f g : Uint8Array) :
  length f = length g ->
  (forall i : Z,
      (band_start (length f) <= i < band_end (length f))%Z ->
      get f i = get g i) ->
  computeHighFreqAvg f = computeHighFreqAvg g.
Proof.
  intros Hlen Hband; unfold computeHighFreqAvg; rewrite <- Hlen.
  rewrite (fold_left_ext_in _ (fun sum i => sum + get g i));
    [reflexivity | ].
  intros a i Hi; apply band_range in Hi; rewrite (Hband i Hi); reflexivity.
Qed.

Lemma rms_step_midpoint : rms_step (Fin 0) x80 = Fin 0.
Proof.
  unfold rms_step; exact_lits.
  replace (byte_val x80) with 128%Z by reflexivity.
  js_eval; rnd_eval 0%Z; js_eval; repeat rnd_eval 0%Z; reflexivity.
Qed.

Lemma rms_step_zero (k : Z) :
  (0 <= k < 2 ^ 53)%Z -> rms_step (Fin (IZR k)) x00 = Fin (IZR (k + 1)).
Proof.
  intros Hk; unfold rms_step; exact_lits.
  replace (byte_val x00) with 0%Z by reflexivity.
  js_eval; rnd_eval (-128)%Z; js_eval; rnd_eval (-1)%Z; js_eval.
  rnd_eval 1%Z; cbn [JS.add].
  rewrite <- plus_IZR, rnd_int by lia; reflexivity.
Qed.

Lemma sumSq_midpoint (uint8 : Uint8Array) :
  Forall (eq x80) uint8 -> fold_left rms_step uint8 (Fin 0) = Fin 0.
Proof.
  induction 1 as [ | b rest <- _ IH]; cbn [fold_left]; [reflexivity | ].
  rewrite rms_step_midpoint; exact IH.
Qed.

Lemma sumSq_zero (uint8 : Uint8Array) :
  Forall (eq x00) uint8 ->
  forall k : Z,
    (0 <= k)%Z -> (k + Z.of_nat (length uint8) <= 2 ^ 53)%Z ->
    fold_left rms_step uint8 (Fin (IZR k))
    = Fin (IZR (k + Z.of_nat (length uint8))).
Proof.
  induction 1 as [ | b rest <- _ IH]; intros k Hk Hlen;
    cbn [fold_left length] in *.
  - rewrite Z.add_0_r; reflexivity.
  - rewrite rms_step_zero by lia.
    rewrite IH by lia; do 2 f_equal; lia.
Qed.

(** X7. The two ends of the energy scale: a buffer that sits at the
    midpoint 128 throughout has energy 0, one that sits at 0
    throughout has energy 100, whatever its length. *)
Theorem computeRMS_extremes (uint8 : Uint8Array) :
  uint8 <> [] -> array_length_ok uint8 ->
  (Forall (eq x80) uint8 -> computeRMS uint8 = Fin 0)
  /\ (Forall (eq x00) uint8 -> computeRMS uint8 = Fin 100).
Proof.
  unfold array_length_ok, max_length; intros Hne Hlen.
  assert (Hpos : (0 < INR (length uint8))%R).
  { apply lt_0_INR; destruct uint8; [congruence | cbn; lia]. }
  split; intros Hall; unfold computeRMS; exact_lits.
  - rewrite (sumSq_midpoint uint8 Hall).
    unfold JS.of_nat; cbn [JS.div]; rcases; [lra | ].
    replace (0 / INR (length uint8))%R with 0%R by (field; lra).
    rewrite rnd_0; js_eval; rewrite sqrt_0, rnd_0; js_eval.
    rnd_eval 0%Z; reflexivity.
  - rewrite (sumSq_zero uint8 Hall 0) by lia.
    rewrite Z.add_0_l, <- INR_IZR_INZ.
    unfold JS.of_nat; cbn [JS.div]; rcases; [lra | ].
    replace (INR (length uint8) / INR (length uint8))%R with 1%R
      by (field; lra).
    rnd_eval 1%Z; js_eval; rewrite sqrt_1; rnd_eval 1%Z; js_eval.
    rnd_eval 100%Z; reflexivity.
Qed.

End FeatureProperties.

Lemma band_inside_buffer_witness :
  array_length_ok [x00; x10; x20; x30]
  /\ (0 <= band_start (RD := exact_arithmetic) 4
      <= band_end (RD := exact_arithmetic) 4)%Z
  /\ (band_end (RD := exact_arithmetic) 4 <= 4)%Z.
Proof.
  assert (H : array_length_ok [x00; x10; x20; x30])
    by (unfold array_length_ok, max_length; cbn; lia).
  split; [exact H | ].
  destruct (band_inside_buffer (RD := exact_arithmetic)
              [x00; x10; x20; x30] H) as (H1 & H2 & _).
  split; [exact H1 | exact H2].
Defined.

(** Of four bins the band holds the two in the middle. *)
Lemma four_bin_band :
  band_start (RD := exact_arithmetic) 4 = 1%Z
  /\ band_end (RD := exact_arithmetic) 4 = 3%Z.
Proof.
  unfold band_start, band_end, JS.floor; cbn [rnd exact_arithmetic INR].
  rewrite (Int_part_between ((1 + 1 + 1 + 1) * 0.35) 1) by lra.
  rewrite (Int_part_between ((1 + 1 + 1 + 1) * 0.9) 3) by lra.
  split; reflexivity.
Qed.

Lemma tilt_depends_on_band_only_witness :
  length [x00; x10; x20; x00] = length [xff; x10; x20; xff]
  /\ (forall i : Z,
         (band_start (RD := exact_arithmetic)
            (length [x00; x10; x20; x00]) <= i
          < band_end (RD := exact_arithmetic)
              (length [x00; x10; x20; x00]))%Z ->
         get [x00; x10; x20; x00] i = get [xff; x10; x20; xff] i)
  /\ computeHighFreqAvg (RD := exact_arithmetic) [x00; x10; x20; x00]
     = computeHighFreqAvg (RD := exact_arithmetic) [xff; x10; x20; xff].
Proof.
  assert (H1 : length [x00; x10; x20; x00] = length [xff; x10; x20; xff])
    by reflexivity.
  assert (H2 : forall i : Z,
             (band_start (RD := exact_arithmetic)
                (length [x00; x10; x20; x00]) <= i
              < band_end (RD := exact_arithmetic)
                  (length [x00; x10; x20; x00]))%Z ->
             get [x00; x10; x20; x00] i = get [xff; x10; x20; xff] i).
  { cbn [length]; destruct four_bin_band as (-> & ->); intros i Hi.
    assert (Hc : i = 1%Z \/ i = 2%Z) by lia.
    destruct Hc as [-> | ->]; reflexivity. }
  split; [exact H1 | split; [exact H2 | ]].
  exact (tilt_depends_on_band_only (RD := exact_arithmetic) _ _ H1 H2).
Defined.

Lemma computeRMS_extremes_witness :
  [x80; x80; x80] <> [] /\ array_length_ok [x80; x80; x80]
  /\ Forall (eq x80) [x80; x80; x80]
  /\ computeRMS (RD := exact_arithmetic) [x80; x80; x80] = Fin 0.
Proof.
  assert (H1 : [x80; x80; x80] <> []) by discriminate.
  assert (H2 : array_length_ok [x80; x80; x80])
    by (unfold array_length_ok, max_length; cbn; lia).
  assert (H3 : Forall (eq x80) [x80; x80; x80])
    by (repeat (apply Forall_cons; [reflexivity | ]); apply Forall_nil).
  repeat (split; [assumption | ]).
  exact (proj1 (computeRMS_extremes (RD := exact_arithmetic)
                  [x80; x80; x80] H1 H2) H3).
Defined.

(** ** Calibration *)

Lemma count_le_perm (c : num) (l1 l2 : list num) :
  Permutation l1 l2 -> count_le c l1 = count_le c l2.
Proof.
  unfold count_le;
    induction 1 as [ | x l l' _ IH | x y l | l l' l'' _ IH1 _ IH2];
    cbn [filter].
  - reflexivity.
  - destruct (JS.le x c); cbn [length]; rewrite IH; reflexivity.
  - destruct (JS.le x c), (JS.le y c); reflexivity.
  - rewrite IH1; exact IH2.
Qed.

(** In an ascending list, below an element that is not [<= c] there
    are at most as many elements [<= c] as its index. *)
Lemma count_le_ascending (c : num) (l : list num) :
  ascending_order l ->
  forall (m : nat) (x : num),
    nth_error l m = Some x -> JS.le x c = false ->
    (count_le c l <= m)%nat.
Proof.
  intros Hs; apply Sorted_StronglySorted in Hs; [ | exact le_trans].
  induction Hs as [ | y l Hs IH Hy]; intros m x Hm Hx.
  - destruct m; discriminate.
  - unfold count_le in *; cbn [filter]; destruct m as [ | m]; cbn in Hm.
    + injection Hm as ->.
      rewrite Hx.
      assert (Hall : Forall (fun a => JS.le a c = false) l).
      { eapply Forall_impl; [ | exact Hy].
        intros z Hz; cbn beta in *.
        destruct (JS.le z c) eqn:Ez; [ | reflexivity].
        rewrite <- Hx; symmetry; eapply le_trans; eassumption. }
      assert (Hnone : filter (fun a => JS.le a c) l = []).
      { clear - Hall; induction Hall as [ | z l Hz _ IHl]; cbn [filter];
          [reflexivity | rewrite Hz; exact IHl]. }
      rewrite Hnone; cbn; lia.
    + specialize (IH m x Hm Hx).
      destruct (JS.le y c); cbn [length]; lia.
Qed.

Section CalibrationExtras.
Context {RD : Rounding}.
Local Open Scope num_scope.

(** The median read returns one of the samples, or the literal 0, and
    never [NaN]. *)
Lemma baseline_of_member (buf : list num) :
  (In (baseline_of buf) buf \/ baseline_of buf = Fin 0)
  /\ baseline_of buf <> NaN.
Proof.
  unfold baseline_of.
  destruct (nth_error (sort ascending buf)
              (length (sort ascending buf) / 2)) as [x | ] eqn:E;
    cbn [or_zero].
  - destruct (JS.truthy x) eqn:T.
    + split; [left | destruct x; cbn in T; congruence].
      eapply Permutation_in;
        [apply Permutation_sym, (sort_perm ascending) | ].
      eapply nth_error_In; exact E.
    + exact_lits; split; [right; reflexivity | discriminate].
  - exact_lits; split; [right; reflexivity | discriminate].
Qed.

(** X8. Robustness of the baseline: when more than half of the samples
    are at most [c] ([floor(n/2) < count]), so is the baseline;
    outliers above [c] in the minority do not move it. *)
Theorem baseline_robust (buf : list num) (c : num) :
  numbers buf ->
  (length buf / 2 < count_le c buf)%nat ->
  (baseline_of buf <= c) = true.
Proof.
  intros Hnum Hcount.
  assert (Hne : buf <> []).
  { intros ->; cbn in Hcount; lia. }
  pose proof (sort_ascending buf Hnum) as Hs.
  pose proof (sort_perm ascending buf) as HP.
  pose proof (baseline_of_median buf _ Hne Hnum HP Hs) as Hmed.
  destruct (baseline_of buf <= c) eqn:E; [reflexivity | exfalso].
  pose proof (count_le_ascending c _ Hs _ _ Hmed E) as Hle.
  rewrite <- (count_le_perm c _ _ HP) in Hle; lia.
Qed.

(** X9. A completed calibration of well-formed frames sets each baseline
    to one of the samples it collected; hence the energy baseline lies
    in [[0, 100]] and, the bin sums being exact, the tilt baseline in
    [[0, 255]]. *)
Theorem calibrated_baseline_is_a_sample (t0 : num) (env : list Sample)
  (s : Session) :
  calibrated (calibrate t0 env s) = true ->
  Forall well_formed (collected t0 env) ->
  In (baselineRMS (calibrate t0 env s)) (energies (collected t0 env))
  /\ In (baselineHF (calibrate t0 env s)) (tilts (collected t0 env))
  /\ in_range (baselineRMS (calibrate t0 env s)) 0 100
  /\ (Forall (fun fr => exact_sum (fd fr)) (collected t0 env) ->
      in_range (baselineHF (calibrate t0 env s)) 0 255).
Proof.
  intros Hdone Hwf.
  destruct (calibrate_completed t0 env s Hdone) as (HR & HH & _ & Hne).
  assert (HinR : In (baselineRMS (calibrate t0 env s))
                   (energies (collected t0 env))).
  { rewrite HR.
    assert (Hmed := baseline_of_median (energies (collected t0 env)) _
                      ltac:(unfold energies; intros E;
                            apply map_eq_nil in E; contradiction)
                      (energies_numbers _ Hwf)
                      (sort_perm ascending _)
                      (sort_ascending _ (energies_numbers _ Hwf))).
    eapply Permutation_in;
      [apply Permutation_sym, (sort_perm ascending) | ].
    eapply nth_error_In; exact Hmed. }
  assert (HinH : In (baselineHF (calibrate t0 env s))
                   (tilts (collected t0 env))).
  { rewrite HH.
    assert (Hmed := baseline_of_median (tilts (collected t0 env)) _
                      ltac:(unfold tilts; intros E;
                            apply map_eq_nil in E; contradiction)
                      (tilts_numbers _ Hwf)
                      (sort_perm ascending _)
                      (sort_ascending _ (tilts_numbers _ Hwf))).
    eapply Permutation_in;
      [apply Permutation_sym, (sort_perm ascending) | ].
    eapply nth_error_In; exact Hmed. }
  split; [exact HinR | split; [exact HinH | split]].
  - unfold energies in HinR; apply in_map_iff in HinR as (fr & <- & Hfr).
    rewrite Forall_forall in Hwf.
    destruct (Hwf fr Hfr) as (Htd & _ & Hlen & _).
    apply (features_bounds (td fr) []); [exact Htd | | ].
    + apply exact_upto_small; unfold array_length_ok, max_length in Hlen; lia.
    + apply exact_upto_small; cbn; lia.
  - intros Hsum.
    unfold tilts in HinH; apply in_map_iff in HinH as (fr & <- & Hfr).
    rewrite Forall_forall in Hsum; specialize (Hsum fr Hfr).
    apply (features_bounds [x00] (fd fr)); [discriminate | | ].
    + apply exact_upto_small; cbn; lia.
    + apply exact_upto_small; exact Hsum.
Qed.

(** X10. Whatever the frames hold, empty buffers included, a completed
    calibration never leaves [NaN] in a baseline: [|| 0] replaces
    it. *)
Theorem calibrated_baseline_never_NaN (t0 : num) (env : list Sample)
  (s : Session) :
  calibrated (calibrate t0 env s) = true ->
  baselineRMS (calibrate t0 env s) <> NaN
  /\ baselineHF (calibrate t0 env s) <> NaN.
Proof.
  intros Hdone.
  destruct (calibrate_completed t0 env s Hdone) as (-> & -> & _).
  split; apply baseline_of_member.
Qed.

Lemma step_pending (t0 : num) (env : list Sample) :
  Forall (fun e => (clock e - t0 < JS.lit 1200) = true) env ->
  forall (rmsBuf hfBuf : list num) (s : Session),
    step t0 rmsBuf hfBuf env s = s.
Proof.
  induction 1 as [ | e env He _ IH]; intros rmsBuf hfBuf s; cbn [step].
  - reflexivity.
  - rewrite He; apply IH.
Qed.

(** X11. As long as every animation frame finds the clock below
    [t0 + 1200], calibration is pending: the baselines and the candle
    are as before, [calibrated] is false, the detection loop has not
    been started and nothing has been logged. *)
Theorem calibration_pending (t0 : num) (env : list Sample)
  (frames : list Frame) (s : Session) :
  Forall (fun e => (clock e - t0 < JS.lit 1200) = true) env ->
  calibrate t0 env s
  = {| baselineRMS := baselineRMS s; baselineHF := baselineHF s;
       calibrated := false; out := out s |}
  /\ startAnalyser t0 env frames s
     = (tt,
        {| baselineRMS := baselineRMS s; baselineHF := baselineHF s;
           calibrated := false; out := out s |},
        []).
Proof.
  intros Hopen.
  assert (Hcal : calibrate t0 env s
                 = {| baselineRMS := baselineRMS s;
                      baselineHF := baselineHF s;
                      calibrated := false; out := out s |})
    by (unfold calibrate; apply step_pending, Hopen).
  split; [exact Hcal | ].
  unfold startAnalyser; rewrite Hcal; reflexivity.
Qed.

Lemma step_ignores_late (t0 : num) (env late : list Sample) :
  forall (rmsBuf hfBuf : list num) (s : Session),
    calibrated s = false ->
    calibrated (step t0 rmsBuf hfBuf env s) = true ->
    step t0 rmsBuf hfBuf (env ++ late) s = step t0 rmsBuf hfBuf env s.
Proof.
  induction env as [ | e env IH]; intros rmsBuf hfBuf s Hs Hdone;
    cbn [step app] in *.
  - congruence.
  - destruct (clock e - t0 < JS.lit 1200); [apply IH; assumption | ].
    reflexivity.
Qed.

Lemma step_forgets (t0 : num) (env : list Sample) :
  forall (rmsBuf hfBuf : list num) (s s' : Session),
    calibrated s = false -> calibrated s' = false -> out s = out s' ->
    calibrated (step t0 rmsBuf hfBuf env s) = true ->
    step t0 rmsBuf hfBuf env s = step t0 rmsBuf hfBuf env s'.
Proof.
  induction env as [ | e env IH]; intros rmsBuf hfBuf s s' Hs Hs' Ho Hdone;
    cbn [step] in *.
  - congruence.
  - destruct (clock e - t0 < JS.lit 1200); [apply IH; assumption | ].
    rewrite Ho; reflexivity.
Qed.

(** X12. A completed calibration is determined by the samples of its
    window: animation frames that come after the window has closed do
    not change it, and of the earlier session state only the class of
    the candle survives. *)
Theorem calibration_determined_by_window (t0 : num) (env : list Sample)
  (s : Session) :
  calibrated (calibrate t0 env s) = true ->
  (forall late : list Sample,
      calibrate t0 (env ++ late) s = calibrate t0 env s)
  /\ (forall s' : Session,
         out s' = out s -> calibrate t0 env s' = calibrate t0 env s).
Proof.
  unfold calibrate; intros Hdone; split.
  - intros late; apply step_ignores_late; [reflexivity | exact Hdone].
  - intros s' Ho; symmetry; apply step_forgets;
      [reflexivity | reflexivity | cbn; congruence | exact Hdone].
Qed.

End CalibrationExtras.

Lemma baseline_robust_witness :
  numbers (RD := exact_arithmetic)
    [Fin 1; Fin 100; Fin 1; Fin 1; Fin 1]
  /\ (length [Fin 1; Fin 100; Fin 1; Fin 1; Fin 1] / 2
      < count_le (Fin 1) [Fin 1; Fin 100; Fin 1; Fin 1; Fin 1])%nat
  /\ (baseline_of (RD := exact_arithmetic)
        [Fin 1; Fin 100; Fin 1; Fin 1; Fin 1] <= Fin 1)%num = true.
Proof.
  assert (H1 : numbers (RD := exact_arithmetic)
                 [Fin 1; Fin 100; Fin 1; Fin 1; Fin 1])
    by (repeat (apply Forall_cons; [reflexivity | ]); apply Forall_nil).
  assert (H2 : (length [Fin 1; Fin 100; Fin 1; Fin 1; Fin 1] / 2
                < count_le (Fin 1) [Fin 1; Fin 100; Fin 1; Fin 1; Fin 1])%nat).
  { unfold count_le; cbn [filter]; js_eval; cbn; lia. }
  split; [exact H1 | split; [exact H2 | ]].
  exact (baseline_robust (RD := exact_arithmetic) _ _ H1 H2).
Defined.

Lemma odd_run_well_formed :
  Forall well_formed (collected (RD := exact_arithmetic) (Fin 0) odd_run).
Proof.
  pose proof sample_frames_well_formed as (Hq & Hl & _).
  rewrite odd_run_collected.
  repeat (apply Forall_cons; [assumption | ]); apply Forall_nil.
Qed.

Lemma calibrated_baseline_is_a_sample_witness :
  calibrated (calibrate (RD := exact_arithmetic) (Fin 0) odd_run
                (initial false)) = true
  /\ Forall well_formed (collected (RD := exact_arithmetic) (Fin 0) odd_run)
  /\ In (baselineRMS (calibrate (RD := exact_arithmetic) (Fin 0) odd_run
                        (initial false)))
        (energies (RD := exact_arithmetic)
           (collected (RD := exact_arithmetic) (Fin 0) odd_run))
  /\ in_range (baselineRMS (calibrate (RD := exact_arithmetic) (Fin 0)
                              odd_run (initial false))) 0 100.
Proof.
  assert (H1 := odd_run_completes).
  assert (H2 := odd_run_well_formed).
  split; [exact H1 | split; [exact H2 | ]].
  destruct (calibrated_baseline_is_a_sample (RD := exact_arithmetic)
              (Fin 0) odd_run (initial false) H1 H2) as (H3 & _ & H4 & _).
  split; [exact H3 | exact H4].
Defined.

(** A run whose only frame has empty buffers: the energy sample is
    [NaN], the baseline is not. *)
Lemma calibrated_baseline_never_NaN_witness :
  calibrated
    (calibrate (RD := exact_arithmetic) (Fin 0)
       [ {| frame := {| td := []; fd := [] |}; clock := Fin 1300 |} ]
       (initial false)) = true
  /\ baselineRMS
       (calibrate (RD := exact_arithmetic) (Fin 0)
          [ {| frame := {| td := []; fd := [] |}; clock := Fin 1300 |} ]
          (initial false)) <> NaN.
Proof.
  assert (H : calibrated
                (calibrate (RD := exact_arithmetic) (Fin 0)
                   [ {| frame := {| td := []; fd := [] |};
                        clock := Fin 1300 |} ]
                   (initial false)) = true).
  { unfold calibrate; cbn [step frame clock].
    rewrite clock_expired by lia; reflexivity. }
  split; [exact H | ].
  exact (proj1 (calibrated_baseline_never_NaN (RD := exact_arithmetic)
                  _ _ _ H)).
Defined.

Lemma calibration_pending_witness :
  Forall (fun e => (clock e - Fin 0 < JS.lit (RD := exact_arithmetic) 1200)%num
                   = true)
    [ {| frame := quiet; clock := Fin 400 |};
      {| frame := loud; clock := Fin 800 |} ]
  /\ startAnalyser (RD := exact_arithmetic) (Fin 0)
       [ {| frame := quiet; clock := Fin 400 |};
         {| frame := loud; clock := Fin 800 |} ]
       [hiss; hiss] (initial false)
     = (tt,
        {| baselineRMS := baselineRMS (initial (RD := exact_arithmetic) false);
           baselineHF := baselineHF (initial (RD := exact_arithmetic) false);
           calibrated := false;
           out := out (initial (RD := exact_arithmetic) false) |},
        []).
Proof.
  assert (H : Forall
                (fun e => (clock e - Fin 0
                           < JS.lit (RD := exact_arithmetic) 1200)%num = true)
                [ {| frame := quiet; clock := Fin 400 |};
                  {| frame := loud; clock := Fin 800 |} ]).
  { repeat (apply Forall_cons;
            [cbn [clock]; apply clock_running; lia | ]).
    apply Forall_nil. }
  split; [exact H | ].
  exact (proj2 (calibration_pending (RD := exact_arithmetic) (Fin 0) _
                  [hiss; hiss] (initial false) H)).
Defined.

Lemma calibration_determined_by_window_witness :
  calibrated (calibrate (RD := exact_arithmetic) (Fin 0) odd_run
                (initial false)) = true
  /\ calibrate (RD := exact_arithmetic) (Fin 0)
       (odd_run ++ [ {| frame := loud; clock := Fin 1400 |} ])
       (initial false)
     = calibrate (RD := exact_arithmetic) (Fin 0) odd_run (initial false).
Proof.
  assert (H := odd_run_completes).
  split; [exact H | ].
  exact (proj1 (calibration_determined_by_window (RD := exact_arithmetic)
                  (Fin 0) odd_run (initial false) H)
           [ {| frame := loud; clock := Fin 1400 |} ]).
Defined.

(** ** The detection loop *)

Section LoopExtras.
Context {RD : Rounding}.

(** A tick of the calibrated session with the candle not out. *)
Lemma tick_armed (fr : Frame) (s : Session) :
  calibrated s = true -> out s = false ->
  events (tick fr s)
  = CallIsBlowing s :: (if result (isBlowing fr s) then [AddOut] else [])
  /\ (result (isBlowing fr s) = true -> out (final (tick fr s)) = true)
  /\ (result (isBlowing fr s) = false -> final (tick fr s) = s).
Proof.
  intros Hc Ho.
  destruct (tick_cases fr s)
    as [(_ & _ & [(Hb & E) | (Hb & E)]) | ([Ho' | Hc'] & _)];
    try congruence; rewrite E, Hb; repeat split; congruence.
Qed.

(** X14. The whole trace of the loop.  From a calibrated session with the
    candle not out, [isBlowing] is called, always in that same state,
    once for each frame up to and including the first that it
    classifies as a blow; then the candle is put out and nothing more
    happens; the candle ends out exactly when there is such a frame.
    From an uncalibrated session the loop does nothing at all. *)
Theorem loopDetect_trace (frames : list Frame) (s : Session) :
  (calibrated s = true -> out s = false ->
   events (loopDetect frames s)
   = map (fun _ => CallIsBlowing s)
         (upto_first (fun fr => result (isBlowing fr s)) frames)
     ++ (if existsb (fun fr => result (isBlowing fr s)) frames
         then [AddOut] else [])
   /\ out (final (loopDetect frames s))
      = existsb (fun fr => result (isBlowing fr s)) frames)
  /\ (calibrated s = false -> loopDetect frames s = (tt, s, [])).
Proof.
  split.
  - intros Hc Ho; induction frames as [ | fr rest IH].
    + cbn; split; [reflexivity | exact Ho].
    + rewrite loopDetect_events, loopDetect_final.
      cbn [upto_first existsb map].
      destruct (tick_armed fr s Hc Ho) as (-> & Hfire & Hskip).
      destruct (result (isBlowing fr s)) eqn:Hb; cbn [orb].
      * rewrite (loopDetect_out rest _ (Hfire eq_refl)).
        split; [reflexivity | apply Hfire; reflexivity].
      * rewrite (Hskip eq_refl); destruct IH as (-> & ->).
        split; reflexivity.
  - intros Hc; induction frames as [ | fr rest IH]; [reflexivity | ].
    rewrite loopDetect_cons.
    destruct (tick_cases fr s) as [(_ & Hc' & _) | (_ & E)];
      [congruence | ].
    rewrite E; unfold final, events; cbn [fst snd]; rewrite IH.
    reflexivity.
Qed.

End LoopExtras.

Lemma loopDetect_trace_witness :
  calibrated armed = true /\ out armed = false
  /\ out (final (loopDetect (RD := exact_arithmetic)
                   [quiet; hiss; hiss] armed))
     = existsb (fun fr => result (isBlowing (RD := exact_arithmetic) fr armed))
         [quiet; hiss; hiss].
Proof.
  assert (H1 : calibrated armed = true) by reflexivity.
  assert (H2 : out armed = false) by reflexivity.
  split; [exact H1 | split; [exact H2 | ]].
  exact (proj2 (proj1 (loopDetect_trace (RD := exact_arithmetic)
                         [quiet; hiss; hiss] armed) H1 H2)).
Defined.

(** ** Acquiring the microphone *)

(** [deliver] moves the page as [phase_step] moves its phase. *)
Lemma deliver_phase (i : Input) (ph : Phase) :
  deliver i (page_of_phase ph) = page_of_phase (phase_step i ph).
Proof.
  destruct ph as [[ | ] | | | [ | ] | got];
    destruct i as [[ | ] [ | ] | | [ | ] | ]; reflexivity.
Qed.

(** From the loaded page on, the handlers [initMic], [start] and
    [createGestureGate] make the page run through five phases: after
    any inputs the page is the one of the phase that [phase_step]
    reaches. *)
Lemma page_follows_phases (inputs : list Input) :
  page_after inputs = page_of_phase (phase_after inputs).
Proof.
  unfold page_after, phase_after.
  change page_loaded with (page_of_phase (Loading AwaitStream)).
  generalize (Loading AwaitStream).
  induction inputs as [ | i inputs IH]; intros ph; cbn [fold_left].
  - reflexivity.
  - rewrite deliver_phase; apply IH.
Qed.

(** X15. Whatever the host does, at most one call of [startAnalyser] runs
    to its end, so that [calibrate().then(loopDetect)] is reached at
    most once in a page (a call that throws part-way can come before
    it); [createGestureGate] runs at most once, at most one gate
    element is in the document and at most one call of [initMic] is in
    flight. *)
Theorem startAnalyser_completes_at_most_once (inputs : list Input) :
  (completed (page_after inputs) <= 1)%nat
  /\ (gates (page_after inputs) <= 1)%nat
  /\ (overlays (page_after inputs) <= 1)%nat
  /\ (length (pending (page_after inputs)) <= 1)%nat.
Proof.
  rewrite page_follows_phases.
  destruct (phase_after inputs) as [st | | | st | [ | ]]; cbn; lia.
Qed.

(** X16. The gate is a single chance.  Once the attempt started by a tap
    has ended, with the microphone or without, the gate is gone and no
    input changes the page any more: after a refusal the microphone is
    never asked for again. *)
Theorem gesture_attempt_is_final (inputs more : list Input) :
  started (page_after inputs) = true ->
  pending (page_after inputs) = [] ->
  overlays (page_after inputs) = 0%nat
  /\ page_after (inputs ++ more) = page_after inputs.
Proof.
  rewrite !page_follows_phases; unfold phase_after.
  rewrite fold_left_app; fold (phase_after inputs).
  destruct (phase_after inputs) as [st | | | st | got]; cbn;
    try discriminate; intros _ _.
  split; [reflexivity | f_equal].
  induction more as [ | i more IH]; cbn [fold_left]; [reflexivity | ].
  destruct i as [[ | ] [ | ] | | [ | ] | ]; exact IH.
Qed.

(** X17. A tap is delivered as a [touchend] and a [click]: the second finds
    [started] set and does nothing. *)
Theorem double_tap_starts_once (p : Page) :
  deliver TapGate (deliver TapGate p) = deliver TapGate p.
Proof.
  unfold deliver, start.
  destruct (Nat.eqb (overlays p) 0) eqn:E; [rewrite E; reflexivity | ].
  destruct (started p) eqn:Es; [rewrite E, Es; reflexivity | ].
  cbn; rewrite E; reflexivity.
Qed.


Lemma gesture_attempt_is_final_witness :
  started (page_after [NoStream; TapGate; NoStream]) = true
  /\ pending (page_after [NoStream; TapGate; NoStream]) = []
  /\ overlays (page_after [NoStream; TapGate; NoStream]) = 0%nat
  /\ page_after ([NoStream; TapGate; NoStream]
                 ++ [TapGate; GotStream false true; TapGate])
     = page_after [NoStream; TapGate; NoStream].
Proof.
  assert (H1 : started (page_after [NoStream; TapGate; NoStream]) = true)
    by reflexivity.
  assert (H2 : pending (page_after [NoStream; TapGate; NoStream]) = [])
    by reflexivity.
  split; [exact H1 | split; [exact H2 | ]].
  exact (gesture_attempt_is_final [NoStream; TapGate; NoStream]
           [TapGate; GotStream false true; TapGate] H1 H2).
Defined.


(** ** The page as a whole *)

Section WholePageProperties.
Context {RD : Rounding}.
Local Open Scope num_scope.

(** A tick leaves the three calibration variables as they are. *)
Lemma tick_keeps_baseline (fr : Frame) (s : Session) :
  baselineRMS (final (tick fr s)) = baselineRMS s
  /\ baselineHF (final (tick fr s)) = baselineHF s
  /\ calibrated (final (tick fr s)) = calibrated s.
Proof.
  destruct (tick_cases fr s)
    as [(_ & _ & [(_ & E) | (_ & E)]) | (_ & E)]; rewrite E;
    repeat split; reflexivity.
Qed.

(** The steps of a pending call of [calibrate] are the runs of [step]:
    over the samples [env] they leave the session that [step] computes
    from the buffers the call holds. *)
Lemma step_frames_run_step (env : list Sample) (w : World)
  (c : Calibration) :
  calibrating w = [c] ->
  session (fold_left (fun w e => step_frame e w) env w)
  = step (cal_t0 c) (cal_rmsBuf c) (cal_hfBuf c) env (session w).
Proof.
  revert w c; induction env as [ | e env IH]; intros w c Hc;
    cbn [fold_left step]; [reflexivity | ].
  unfold step_frame at 2; rewrite Hc.
  destruct (clock e - cal_t0 c < JS.lit 1200) eqn:E.
  - erewrite IH by reflexivity; reflexivity.
  - clear IH E; cbn [app].
    match goal with
    | |- session (fold_left _ _ ?w0) = ?s0 =>
        assert (H : forall l w1, calibrating w1 = [] ->
                      fold_left (fun w e => step_frame e w) l w1 = w1)
    end.
    { induction l as [ | e' l IHl]; intros w1 H1; cbn [fold_left];
        [reflexivity | ].
      unfold step_frame at 2; rewrite H1; apply IHl, H1. }
    rewrite H by reflexivity; reflexivity.
Qed.

(** From a page with no calibration pending, the call of [calibrate]
    that a completed [startAnalyser] makes computes what [calibrate]
    computes. *)
Lemma calibrate_start_runs_calibrate (now : num) (env : list Sample)
  (w : World) :
  calibrating w = [] ->
  session (fold_left (fun w e => step_frame e w) env
             (calibrate_start now w))
  = calibrate now env (session w).
Proof.
  intros Hc.
  rewrite (step_frames_run_step env (calibrate_start now w)
             {| cal_t0 := now; cal_rmsBuf := []; cal_hfBuf := [] |})
    by (unfold calibrate_start; cbn [calibrating]; rewrite Hc; reflexivity).
  reflexivity.
Qed.

(** Once a call of [startAnalyser] has run to its end the page takes
    no further input. *)
Lemma deliver_completed (i : Input) (ph : Phase) :
  completed (page_of_phase ph) = 1%nat ->
  deliver i (page_of_phase ph) = page_of_phase ph.
Proof.
  destruct ph as [[ | ] | | | [ | ] | [ | ]]; cbn [page_of_phase completed];
    try discriminate; intros _;
    destruct i as [[ | ] [ | ] | | [ | ] | ]; reflexivity.
Qed.

(** A move on the page completes at most one call of [startAnalyser],
    and none after the first. *)
Lemma deliver_completes (i : Input) (ph : Phase) :
  completed (page_of_phase ph) = 0%nat ->
  completed (deliver i (page_of_phase ph)) = 0%nat
  \/ completed (deliver i (page_of_phase ph)) = 1%nat.
Proof.
  intros _; rewrite deliver_phase.
  destruct (phase_step i ph) as [st | | | st | [ | ]]; cbn; auto.
Qed.

(** The loaded page is idle, and every move keeps the page in one of
    the three stages. *)
Lemma world_loaded_ok (candle_out : bool) : world_ok (world_loaded candle_out).
Proof.
  split; [exists (Loading AwaitStream); reflexivity | ].
  left; repeat split.
Qed.

Lemma world_step_ok (m : Move) (w : World) :
  world_ok w -> world_ok (world_step m w).
Proof.
  intros ((ph & Hp) & Hs).
  destruct m as [i now | e | fr | fr]; cbn [world_step].
  - (* a move on the page *)
    unfold host; rewrite Hp.
    split.
    { exists (phase_step i ph).
      destruct (Nat.ltb _ _); cbn [calibrate_start page];
        apply deliver_phase. }
    destruct Hs as [(H0 & Hc & Hr & Hl & Hk) | [H1 | H1]].
    + rewrite Hp in H0.
      destruct (deliver_completes i ph H0) as [E | E]; rewrite H0, E;
        cbn [Nat.ltb Nat.leb].
      * left; repeat split; cbn; assumption.
      * right; left; unfold world_calibrating, calibrate_start.
        cbn [page session calibrating resolved loops calibrated].
        rewrite Hc; repeat split; try assumption.
        eexists; reflexivity.
    + destruct H1 as (H1 & Hrest); rewrite Hp in H1.
      rewrite (deliver_completed i ph H1), H1, <- Hp.
      cbn [Nat.ltb Nat.leb].
      right; left; unfold world_calibrating; cbn [page session calibrating resolved loops calibrated].
      split; [rewrite Hp; exact H1 | exact Hrest].
    + destruct H1 as (H1 & Hrest); rewrite Hp in H1.
      rewrite (deliver_completed i ph H1), H1, <- Hp.
      cbn [Nat.ltb Nat.leb].
      right; right; unfold world_detecting; cbn [page session calibrating resolved loops calibrated].
      split; [rewrite Hp; exact H1 | exact Hrest].
  - (* a step of calibrate *)
    unfold step_frame.
    destruct Hs as [(H0 & Hc & Hr & Hl & Hk) | [H1 | H1]].
    + rewrite Hc; split; [exists ph; exact Hp | ].
      left; repeat split; assumption.
    + destruct H1 as (H1 & (c & Hc) & Hr & Hl & Hk); rewrite Hc.
      destruct (clock e - cal_t0 c < JS.lit 1200).
      * split; [exists ph; exact Hp | ].
        right; left; unfold world_calibrating; cbn [page session calibrating resolved loops calibrated].
        repeat split; try assumption.
        eexists; reflexivity.
      * split; [exists ph; exact Hp | ].
        right; right; unfold world_detecting; cbn [page session calibrating resolved loops calibrated].
        repeat split; try assumption.
        rewrite Hr, Hl; reflexivity.
    + destruct H1 as (H1 & Hc & Hrest); rewrite Hc.
      split; [exists ph; exact Hp | ].
      right; right; repeat split; tauto.
  - (* the callback of then *)
    unfold then_loopDetect.
    destruct (resolved w) as [ | n] eqn:Er;
      [split; [exists ph; exact Hp | exact Hs] | ].
    split; [exists ph; exact Hp | ].
    destruct Hs as [(H0 & Hc & Hr & Hl & Hk) | [H1 | H1]];
      [congruence | destruct H1 as (_ & _ & Hr & _); congruence | ].
    destruct H1 as (H1 & Hc & Hrl & Hk).
    right; right; unfold world_detecting; cbn [page session calibrating resolved loops calibrated].
    destruct (tick_keeps_baseline fr (session w)) as (_ & _ & ->).
    repeat split; try assumption.
    rewrite Er in Hrl; lia.
  - (* a tick *)
    unfold tick_frame.
    destruct (loops w) as [ | n] eqn:El;
      [split; [exists ph; exact Hp | exact Hs] | ].
    split; [exists ph; exact Hp | ].
    destruct Hs as [(H0 & Hc & Hr & Hl & Hk) | [H1 | H1]];
      [congruence | destruct H1 as (_ & _ & _ & Hl & _); congruence | ].
    destruct H1 as (H1 & Hc & Hrl & Hk).
    right; right; unfold world_detecting; cbn [page session calibrating resolved loops calibrated].
    destruct (tick_keeps_baseline fr (session w)) as (_ & _ & ->).
    repeat split; try assumption.
    rewrite El in Hrl; exact Hrl.
Qed.

Lemma world_after_ok (candle_out : bool) (moves : list Move) :
  world_ok (world_after candle_out moves).
Proof.
  unfold world_after.
  generalize (world_loaded_ok candle_out).
  generalize (world_loaded candle_out).
  induction moves as [ | m moves IH]; intros w Hw; cbn [fold_left];
    [exact Hw | ].
  apply IH, world_step_ok, Hw.
Qed.

(** In the calibrated page no move writes a calibration variable. *)
Lemma world_step_calibrated (m : Move) (w : World) :
  world_ok w -> calibrated (session w) = true ->
  baselineRMS (session (world_step m w)) = baselineRMS (session w)
  /\ baselineHF (session (world_step m w)) = baselineHF (session w)
  /\ calibrated (session (world_step m w)) = true.
Proof.
  intros ((ph & Hp) & Hs) Hk.
  destruct Hs as [(_ & _ & _ & _ & Hk') | [(_ & _ & _ & _ & Hk') | H1]];
    [congruence | congruence | ].
  destruct H1 as (H1 & Hc & Hrl & _).
  destruct m as [i now | e | fr | fr]; cbn [world_step].
  - unfold host; rewrite Hp in *.
    rewrite (deliver_completed i ph H1), H1.
    cbn [Nat.ltb Nat.leb session]; repeat split; exact Hk.
  - unfold step_frame; rewrite Hc; repeat split; exact Hk.
  - unfold then_loopDetect.
    destruct (resolved w); [repeat split; exact Hk | ].
    cbn [session].
    destruct (tick_keeps_baseline fr (session w)) as (-> & -> & ->).
    repeat split; exact Hk.
  - unfold tick_frame.
    destruct (loops w); [repeat split; exact Hk | ].
    cbn [session].
    destruct (tick_keeps_baseline fr (session w)) as (-> & -> & ->).
    repeat split; exact Hk.
Qed.

(** C9. Nothing but the one completing step of [calibrate] writes
    [baselineRMS], [baselineHF] or [calibrated].  [isBlowing] leaves the
    whole session as it is; a tick and a run of the loop change at most
    the class of the candle.  And over the whole life of the page,
    whatever the host does: at most one call of [calibrate] is ever
    under way, and once a calibration has completed, so that
    [calibrated] is [true], no call of [calibrate] is under way at any
    later time and the three variables keep their values. *)
Theorem baseline_is_read_only :
  (forall (fr : Frame) (s : Session), final (isBlowing fr s) = s)
  /\ (forall (fr : Frame) (s : Session),
         baselineRMS (final (tick fr s)) = baselineRMS s
         /\ baselineHF (final (tick fr s)) = baselineHF s
         /\ calibrated (final (tick fr s)) = calibrated s)
  /\ (forall (frames : list Frame) (s : Session),
         baselineRMS (final (loopDetect frames s)) = baselineRMS s
         /\ baselineHF (final (loopDetect frames s)) = baselineHF s
         /\ calibrated (final (loopDetect frames s)) = calibrated s)
  /\ (forall (candle_out : bool) (moves : list Move),
         (length (calibrating (world_after candle_out moves)) <= 1)%nat)
  /\ (forall (candle_out : bool) (moves more : list Move),
         calibrated (session (world_after candle_out moves)) = true ->
         calibrating (world_after candle_out (moves ++ more)) = []
         /\ baselineRMS (session (world_after candle_out (moves ++ more)))
            = baselineRMS (session (world_after candle_out moves))
         /\ baselineHF (session (world_after candle_out (moves ++ more)))
            = baselineHF (session (world_after candle_out moves))
         /\ calibrated (session (world_after candle_out (moves ++ more)))
            = true).
Proof.
  destruct detection_keeps_baseline as (H1 & H2 & H3).
  split; [exact H1 | split; [exact H2 | split; [exact H3 | split]]].
  - intros candle_out moves.
    destruct (world_after_ok candle_out moves)
      as (_ & [(_ & -> & _) | [(_ & (c & ->) & _) | (_ & -> & _)]]);
      cbn; lia.
  - intros candle_out moves more Hk.
    unfold world_after at 1 2 4 6; rewrite fold_left_app.
    fold (world_after candle_out moves).
    generalize (world_after_ok candle_out moves) Hk.
    generalize (world_after candle_out moves).
    clear Hk; induction more as [ | m more IH]; intros w Hw Hk;
      cbn [fold_left].
    + destruct Hw as (_ & [(_ & _ & _ & _ & Hk') |
                           [(_ & _ & _ & _ & Hk') | (_ & Hc & _)]]);
        [congruence | congruence | ].
      repeat split; [exact Hc | exact Hk].
    + destruct (world_step_calibrated m w Hw Hk) as (E1 & E2 & E3).
      destruct (IH (world_step m w) (world_step_ok m w Hw) E3)
        as (I0 & I1 & I2 & I3).
      repeat split; [exact I0 | congruence | congruence | exact I3].
Qed.

End WholePageProperties.

Lemma baseline_is_read_only_witness :
  calibrated
    (session
       (world_after (RD := exact_arithmetic) false
          [Host (GotStream false true) (Fin 0);
           StepFrame {| frame := quiet; clock := Fin 1300 |}]))
  = true
  /\ baselineRMS
       (session
          (world_after (RD := exact_arithmetic) false
             ([Host (GotStream false true) (Fin 0);
               StepFrame {| frame := quiet; clock := Fin 1300 |}]
              ++ [ThenLoopDetect hiss; Host TapGate (Fin 2000);
                  StepFrame {| frame := loud; clock := Fin 4000 |};
                  TickFrame hiss])))
     = baselineRMS
         (session
            (world_after (RD := exact_arithmetic) false
               [Host (GotStream false true) (Fin 0);
                StepFrame {| frame := quiet; clock := Fin 1300 |}])).
Proof.
  assert (H : calibrated
                (session
                   (world_after (RD := exact_arithmetic) false
                      [Host (GotStream false true) (Fin 0);
                       StepFrame {| frame := quiet; clock := Fin 1300 |}]))
              = true).
  { unfold world_after; cbn [fold_left world_step].
    unfold host; cbn.
    unfold step_frame; cbn [calibrating cal_t0 clock].
    destruct (Rgtb 1200 (1300 - 0)) eqn:E;
      [apply Rgtb_true_iff in E; lra | reflexivity]. }
  split; [exact H | ].
  exact (proj1 (proj2
           (proj2 (proj2 (proj2 (proj2 (baseline_is_read_only
                                          (RD := exact_arithmetic)))))
              false
              [Host (GotStream false true) (Fin 0);
               StepFrame {| frame := quiet; clock := Fin 1300 |}]
              [ThenLoopDetect hiss; Host TapGate (Fin 2000);
               StepFrame {| frame := loud; clock := Fin 4000 |};
               TickFrame hiss] H))).
Defined.

(** ** The first version of the detector *)

Section LegacyProperties.
Context {RD : Rounding}.
Local Open Scope num_scope.

(** The loop of the first [isBlowing] adds the bins exactly, as long
    as the sums stay below 2^53. *)
Lemma legacy_sum (dataArray : Uint8Array) :
  forall k : Z,
    (0 <= k)%Z ->
    (k + 255 * Z.of_nat (length dataArray) <= 2 ^ 53)%Z ->
    fold_left (fun sum b => sum + Fin (IZR (byte_val b))) dataArray
              (Fin (IZR k))
    = Fin (IZR (k + byte_sum dataArray)).
Proof.
  unfold byte_sum.
  induction dataArray as [ | b rest IH]; intros k Hk Hlen;
    cbn [fold_left fold_right map length] in *.
  - rewrite Z.add_0_r; reflexivity.
  - pose proof (byte_val_range b) as Hb.
    cbn [JS.add]; rewrite <- plus_IZR, rnd_int by lia.
    rewrite IH by lia; do 2 f_equal; lia.
Qed.

Lemma byte_sum_range (a : Uint8Array) :
  (0 <= byte_sum a <= 255 * Z.of_nat (length a))%Z.
Proof.
  unfold byte_sum; induction a as [ | b rest IH];
    cbn [fold_right map length]; [lia | ].
  pose proof (byte_val_range b); lia.
Qed.

Lemma legacy_fires_above_40 (dataArray : Uint8Array) :
  exact_sum dataArray ->
  Legacy.isBlowing dataArray = true ->
  dataArray <> []
  /\ (40 * Z.of_nat (length dataArray) < byte_sum dataArray)%Z.
Proof.
  unfold exact_sum, Legacy.isBlowing; intros Hsum; exact_lits.
  rewrite (legacy_sum dataArray 0) by lia.
  rewrite Z.add_0_l.
  destruct dataArray as [ | b rest].
  - cbn; js_eval; discriminate.
  - set (l := b :: rest) in *.
    assert (Hpos : (0 < INR (length l))%R)
      by (apply lt_0_INR; cbn; lia).
    unfold JS.of_nat; cbn [JS.div]; rcases; [lra | ].
    cbn [JS.gt]; rewrite Rgtb_true_iff; intros Hgt.
    split; [discriminate | ].
    apply lt_IZR; rewrite mult_IZR, <- INR_IZR_INZ.
    destruct (Rle_or_lt (IZR (byte_sum l)) (40 * INR (length l)))
      as [Hle | Hlt]; [exfalso | exact Hlt].
    assert ((rnd (IZR (byte_sum l) / INR (length l)) <= 40)%R).
    { apply (rnd_le_int _ 40); [simpl; lia | ].
      apply (Rmult_le_reg_r (INR (length l))); [exact Hpos | ].
      unfold Rdiv; rewrite Rmult_assoc, Rinv_l by lra; lra. }
    lra.
Qed.

(** X22. Polling is a latch: after any number of timer calls the candle is
    out exactly when it was out before or one of the reads was
    classified as a blow. *)
Theorem legacy_poll_latch (reads : list Uint8Array) (out : bool) :
  Legacy.poll reads out = out || existsb Legacy.isBlowing reads.
Proof.
  unfold Legacy.poll; revert out.
  induction reads as [ | d reads IH]; intros out; cbn [fold_left existsb].
  - rewrite orb_false_r; reflexivity.
  - rewrite IH; unfold Legacy.blowOutCandle.
    destruct out, (Legacy.isBlowing d); reflexivity.
Qed.

End LegacyProperties.

Lemma legacy_exact_iff (dataArray : Uint8Array) :
  Legacy.isBlowing (RD := exact_arithmetic) dataArray = true
  <-> (dataArray <> []
       /\ (40 * Z.of_nat (length dataArray) < byte_sum dataArray)%Z).
Proof.
  unfold Legacy.isBlowing.
  rewrite (lit_int 0), (lit_int 40) by (simpl; lia).
  assert (Hfold : forall (l : Uint8Array) (k : Z),
             fold_left
               (fun sum b => JS.add (RD := exact_arithmetic) sum
                               (Fin (IZR (byte_val b)))) l (Fin (IZR k))
             = Fin (IZR (k + byte_sum l))).
  { unfold byte_sum; induction l as [ | b rest IH]; intros k;
      cbn [fold_left fold_right map].
    - rewrite Z.add_0_r; reflexivity.
    - cbn [JS.add rnd exact_arithmetic]; rewrite <- plus_IZR, IH.
      do 2 f_equal; lia. }
  rewrite (Hfold dataArray 0%Z), Z.add_0_l.
  destruct dataArray as [ | b rest].
  - cbn; js_eval; split; [discriminate | intros (H & _); congruence].
  - set (l := b :: rest) in *.
    assert (Hpos : 0 < INR (length l)) by (apply lt_0_INR; cbn; lia).
    unfold JS.of_nat; cbn [JS.div]; rcases; [lra | ].
    cbn [JS.gt rnd exact_arithmetic]; rewrite Rgtb_true_iff.
    split.
    + intros Hgt; split; [discriminate | ].
      apply lt_IZR; rewrite mult_IZR, <- INR_IZR_INZ.
      apply (Rmult_lt_compat_r (INR (length l))) in Hgt; [ | exact Hpos].
      unfold Rdiv in Hgt; rewrite Rmult_assoc, Rinv_l in Hgt by lra; lra.
    + intros (_ & Hlt); apply IZR_lt in Hlt.
      rewrite mult_IZR, <- INR_IZR_INZ in Hlt.
      apply (Rmult_lt_reg_r (INR (length l))); [exact Hpos | ].
      unfold Rdiv; rewrite Rmult_assoc, Rinv_l by lra; lra.
Qed.

(** X21. The first detector fires only when the mean of all bins exceeds
    40, that is when their sum exceeds 40 times their number, and
    never on an empty buffer, whose mean is [NaN]; under exact
    arithmetic it fires exactly then. *)
Theorem legacy_isBlowing_threshold (dataArray : Uint8Array) :
  (forall RD : Rounding,
      exact_sum dataArray ->
      Legacy.isBlowing dataArray = true ->
      dataArray <> []
      /\ (40 * Z.of_nat (length dataArray) < byte_sum dataArray)%Z)
  /\ (Legacy.isBlowing (RD := exact_arithmetic) dataArray = true
      <-> (dataArray <> []
           /\ (40 * Z.of_nat (length dataArray) < byte_sum dataArray)%Z)).
Proof.
  split; [intros RD; apply legacy_fires_above_40 | apply legacy_exact_iff].
Qed.

Lemma legacy_isBlowing_threshold_witness :
  exact_sum [x20; x40; x30]
  /\ Legacy.isBlowing (RD := exact_arithmetic) [x20; x40; x30] = true
  /\ (40 * Z.of_nat (length [x20; x40; x30]) < byte_sum [x20; x40; x30])%Z.
Proof.
  assert (H1 : exact_sum [x20; x40; x30]) by (unfold exact_sum; cbn; lia).
  assert (H2 : Legacy.isBlowing (RD := exact_arithmetic) [x20; x40; x30]
               = true).
  { apply legacy_exact_iff; split; [discriminate | vm_compute; reflexivity]. }
  split; [exact H1 | split; [exact H2 | ]].
  exact (proj2 (proj1 (legacy_isBlowing_threshold [x20; x40; x30])
                  exact_arithmetic H1 H2)).
Defined.

(** ** The audio contexts *)

Lemma initMic_context_named (a : Audio) :
  audio_named a -> audio_named (initMic_context a).
Proof.
  intros Hn; unfold initMic_context.
  destruct (audioContext a) as [c0 | ] eqn:E; [exact Hn | ].
  destruct Hn as (H1 & H2).
  split; cbn [audioContext contexts resumes].
  - intros c [= <-]; lia.
  - intros c b Hin; specialize (H2 c b Hin); lia.
Qed.

Lemma resume_if_named (suspended by_initMic : bool) (a : Audio) :
  audio_named a -> audio_named (resume_if suspended by_initMic a).
Proof.
  intros Hn; unfold resume_if.
  destruct (audioContext a) as [c0 | ] eqn:E; [ | exact Hn].
  destruct suspended; [ | exact Hn].
  destruct Hn as (H1 & H2).
  split; cbn [audioContext contexts resumes].
  - rewrite <- E; exact H1.
  - intros c b [[= <- <-] | Hin]; [apply H1, E | apply (H2 c b Hin)].
Qed.

Lemma startAnalyser_context_ok (a : Audio) :
  audio_named a -> audio_ok (startAnalyser_context a).
Proof.
  intros (H1 & H2); unfold startAnalyser_context; split; [split | ];
    cbn [audioContext contexts resumes analyser_ctx].
  - intros c [= <-]; lia.
  - intros c b Hin; specialize (H2 c b Hin); lia.
  - intros c [= <-]; reflexivity.
Qed.

Lemma initMic_context_ok (a : Audio) :
  audio_ok a -> audio_ok (initMic_context a).
Proof.
  intros Ha; split; [apply initMic_context_named, Ha | ].
  destruct Ha as (_ & H3); unfold initMic_context.
  destruct (audioContext a) as [c0 | ] eqn:E;
    cbn [audioContext analyser_ctx];
    intros c Hc; specialize (H3 c Hc); congruence.
Qed.

Lemma resume_if_ok (suspended by_initMic : bool) (a : Audio) :
  audio_ok a -> audio_ok (resume_if suspended by_initMic a).
Proof.
  intros Ha; split; [apply resume_if_named, Ha | ].
  destruct Ha as (_ & H3); unfold resume_if.
  destruct (audioContext a) as [c0 | ] eqn:E; [destruct suspended | ];
    cbn [audioContext analyser_ctx];
    intros c Hc; specialize (H3 c Hc); congruence.
Qed.

(** What every sequence of operations keeps. *)
Lemma audio_invariant (ops : list AudioOp) : audio_ok (audio_after ops).
Proof.
  unfold audio_after.
  assert (Hinit : audio_ok no_audio).
  { split; [split | ]; cbn; intros; try discriminate; contradiction. }
  revert Hinit; generalize no_audio.
  induction ops as [ | o ops IH]; intros a Ha; cbn [fold_left];
    [exact Ha | ].
  apply IH; destruct o as [ | suspended | | suspended]; cbn [audio_step].
  - apply initMic_context_ok, Ha.
  - apply resume_if_ok, Ha.
  - apply startAnalyser_context_ok, Ha.
  - apply resume_if_ok, Ha.
Qed.

(** X19. Each time [startAnalyser] runs its first two lines it puts the
    analyser on a context created there, which [audioContext] then
    holds and on which nobody has called [resume()]: the context that
    [initMic] created or resumed just before is not the one the
    analyser uses. *)
Theorem analyser_context_is_fresh (ops : list AudioOp) :
  analyser_ctx (audio_after (ops ++ [StartAnalyser]))
  = Some (contexts (audio_after ops))
  /\ audioContext (audio_after (ops ++ [StartAnalyser]))
     = Some (contexts (audio_after ops))
  /\ (forall b : bool,
         ~ In (contexts (audio_after ops), b)
              (resumes (audio_after (ops ++ [StartAnalyser]))))
  /\ (forall (suspended : bool) (c : nat),
         audioContext (audio_after ops) = Some c ->
         resumes (audio_after (ops ++ [InitMicResume true; StartAnalyser]))
         = (c, true) :: resumes (audio_after ops)
         /\ analyser_ctx
              (audio_after (ops ++ [InitMicResume suspended; StartAnalyser]))
            <> Some c).
Proof.
  destruct (audio_invariant ops) as ((Hv & Hr) & _).
  unfold audio_after in *; rewrite !fold_left_app.
  cbn [fold_left audio_step startAnalyser_context analyser_ctx
       audioContext resumes].
  split; [reflexivity | split; [reflexivity | split]].
  - intros b Hin; specialize (Hr _ _ Hin); lia.
  - intros suspended c Hc; specialize (Hv c Hc).
    rewrite !fold_left_app.
    cbn [fold_left audio_step startAnalyser_context analyser_ctx resumes].
    split.
    + unfold resume_if; rewrite Hc; reflexivity.
    + assert (E : contexts (resume_if suspended true
                              (fold_left (fun a o => audio_step o a) ops
                                 no_audio))
                  = contexts (fold_left (fun a o => audio_step o a) ops
                                no_audio)).
      { unfold resume_if; rewrite Hc; destruct suspended; reflexivity. }
      rewrite E; intros [= Heq]; lia.
Qed.

(** X20. [tryResume] does nothing before a context exists or when the
    context is not suspended; once there is an analyser, a tap that
    finds the context suspended resumes the analyser's context. *)
Theorem tryResume_targets_analyser (ops : list AudioOp) :
  (forall suspended : bool, tryResume suspended no_audio = no_audio)
  /\ tryResume false (audio_after ops) = audio_after ops
  /\ (forall c : nat,
         analyser_ctx (audio_after ops) = Some c ->
         resumes (audio_after (ops ++ [BodyTap true]))
         = (c, false) :: resumes (audio_after ops)).
Proof.
  split; [intros suspended; reflexivity | split].
  - unfold tryResume, resume_if.
    destruct (audioContext (audio_after ops)); reflexivity.
  - intros c Hc.
    destruct (audio_invariant ops) as (_ & H3).
    specialize (H3 c Hc).
    unfold audio_after in *; rewrite fold_left_app; cbn [fold_left audio_step].
    unfold tryResume, resume_if; rewrite H3; reflexivity.
Qed.

Lemma analyser_context_is_fresh_witness :
  audioContext (audio_after [EnsureContext; InitMicResume true])
  = Some 0%nat
  /\ resumes (audio_after ([EnsureContext; InitMicResume true]
                           ++ [InitMicResume true; StartAnalyser]))
     = (0%nat, true) :: resumes (audio_after [EnsureContext;
                                              InitMicResume true])
  /\ analyser_ctx (audio_after ([EnsureContext; InitMicResume true]
                                ++ [InitMicResume true; StartAnalyser]))
     <> Some 0%nat.
Proof.
  assert (H : audioContext (audio_after [EnsureContext; InitMicResume true])
              = Some 0%nat) by reflexivity.
  split; [exact H | ].
  exact (proj2 (proj2 (proj2 (analyser_context_is_fresh
                                [EnsureContext; InitMicResume true])))
           true 0%nat H).
Defined.

Lemma tryResume_targets_analyser_witness :
  analyser_ctx (audio_after [EnsureContext; InitMicResume true;
                             StartAnalyser]) = Some 1%nat
  /\ resumes (audio_after ([EnsureContext; InitMicResume true;
                            StartAnalyser] ++ [BodyTap true]))
     = (1%nat, false)
       :: resumes (audio_after [EnsureContext; InitMicResume true;
                                StartAnalyser]).
Proof.
  assert (H : analyser_ctx (audio_after [EnsureContext; InitMicResume true;
                                         StartAnalyser]) = Some 1%nat)
    by reflexivity.
  split; [exact H | ].
  exact (proj2 (proj2 (tryResume_targets_analyser
                         [EnsureContext; InitMicResume true;
                          StartAnalyser]))
           1%nat H).
Defined.
